(** * Inspection-center dashboard: data pipeline of [project.py]

    A shallow embedding of the loading, filtering, aggregation and
    map-marker code of the dashboard, and the properties its
    specification states about them.

    Conventions of the embedding.
    - A [DataFrame] is the ordered list of its rows; boolean-mask
      selection [df[mask]] is [filter], which keeps order and rows as
      they are (the index labels travel with the rows and are left out).
    - A cell of a text column is a Python [str] or pandas' missing marker
      NaN: [label := option string], with [None] for NaN.
    - A cell of the numeric column [prix_visite] is a float64: NaN, or a
      finite value taken as the exact rational it denotes
      ([price := option Qc]).  Sums and quotients are exact, so binary64
      rounding, overflow and infinities are outside the model.
    - Library functions whose behaviour the script does not fix
      (the builtin [float], [math.isnan] as folium applies it,
      [pd.to_datetime] and the comparison of its result with the bounds,
      [pd.read_csv], the date reading of the chart renderer) are
      parameters of the definitions that call them.
    - A Python exception is a value: a call that can raise returns a
      [result], and [try]/[except] is [try_except]. *)

From Stdlib Require Import Ascii QArith Qcanon.
From stdpp Require Import base decidable option list sorting numbers strings pretty gmap.

Open Scope string_scope.
Open Scope list_scope.

(** ** Data model *)

(** A text cell: [Some s] for the string [s], [None] for NaN. *)
Definition label := option string.

(** A float64 cell: [Some q] for a finite value, [None] for NaN. *)
Definition price := option Qc.

(** The columns of the CSV export the script reads. *)
Record Row := {
  cct_code_dept : label;
  cat_vehicule_libelle : label;
  cat_energie_libelle : label;
  prix_visite : price;
  date_application_visite : label;
  cct_denomination : label;
  coordgeo : label
}.

Abbreviation Table := (list Row).

(** The sentinel entry of the multiselect widgets. *)
Definition ALL : label := Some "All".

(** ** Float comparisons of pandas ([>=], [<=] against a scalar)

    A comparison with NaN on either side is [False]. *)
Definition price_ge (x y : price) : bool :=
  match x, y with
  | Some a, Some b => bool_decide (b <= a)%Qc
  | _, _ => false
  end.

Definition price_le (x y : price) : bool :=
  match x, y with
  | Some a, Some b => bool_decide (a <= b)%Qc
  | _, _ => false
  end.

(** [Series.min()] and [Series.max()] with the default [skipna=True]:
    NaN cells are skipped, and the result is NaN when nothing is left. *)
Definition price_min2 (acc x : price) : price :=
  match acc, x with
  | Some a, Some b => if bool_decide (b <= a)%Qc then Some b else Some a
  | None, _ => x
  | _, None => acc
  end.

Definition price_max2 (acc x : price) : price :=
  match acc, x with
  | Some a, Some b => if bool_decide (a <= b)%Qc then Some b else Some a
  | None, _ => x
  | _, None => acc
  end.

Definition series_min (col : list price) : price := foldl price_min2 None col.
Definition series_max (col : list price) : price := foldl price_max2 None col.

(** ** Filter engine (the script body, lines 197-229) *)

(** The values the sidebar widgets hand to the script. *)
Record FilterSpec := {
  selected_departments : list label;
  more_options : bool;
  selected_vehicle_category : list label;
  selected_energy_type : list label;
  price_range : price * price
}.

(** [df[df[col].isin(selection)]]: pandas' [isin] matches a NaN cell
    against a NaN entry, which is equality on [label]. *)
Definition isin_select (col : Row → label) (selection : list label)
    (df : Table) : Table :=
  filter (λ r, col r ∈ selection) df.

(** [if "All" not in selection: df = df[df[col].isin(selection)]] *)
Definition multiselect_filter (col : Row → label) (selection : list label)
    (df : Table) : Table :=
  if bool_decide (ALL ∈ selection) then df else isin_select col selection df.

(** [df[(df['prix_visite'] >= price_min) & (df['prix_visite'] <= price_max)]] *)
Definition price_mask (price_min price_max : price) (r : Row) : bool :=
  price_ge (prix_visite r) price_min && price_le (prix_visite r) price_max.

Definition price_filter (rng : price * price) (df : Table) : Table :=
  filter (λ r, price_mask rng.1 rng.2 r) df.

(** The pipeline that produces [filtered_data]: the department filter
    always runs, the other three only under "Enable more options". *)
Definition apply_filters (data : Table) (F : FilterSpec) : Table :=
  let filtered_data := data in
  let filtered_data :=
    multiselect_filter cct_code_dept (selected_departments F) filtered_data in
  if more_options F then
    let filtered_data :=
      multiselect_filter cat_vehicule_libelle (selected_vehicle_category F)
        filtered_data in
    let filtered_data :=
      multiselect_filter cat_energie_libelle (selected_energy_type F)
        filtered_data in
    price_filter (price_range F) filtered_data
  else filtered_data.

(** The slider's bounds and initial value:
    [(float(data['prix_visite'].min()), float(data['prix_visite'].max()))]. *)
Definition default_price_range (data : Table) : price * price :=
  (series_min (prix_visite <$> data), series_max (prix_visite <$> data)).

(** The selections of a freshly drawn sidebar: every multiselect at its
    [default=["All"]], the slider at its full range. *)
Definition default_spec (data : Table) (more : bool) : FilterSpec :=
  {| selected_departments := [ALL];
     more_options := more;
     selected_vehicle_category := [ALL];
     selected_energy_type := [ALL];
     price_range := default_price_range data |}.

(** ** Exceptions

    The exception classes the script can meet.  [ParserError] and
    [EmptyDataError] are the ones of [pd.errors]; both derive from
    [ValueError]. *)
Inductive exn :=
  | ValueError
  | AttributeError
  | TypeError
  | ParserError (diagnostic : string)
  | EmptyDataError.

Inductive result (A : Type) :=
  | Ok (a : A)
  | Raise (e : exn).
Arguments Ok {A} a.
Arguments Raise {A} e.

#[global] Instance result_ret : MRet result := λ A a, Ok a.
#[global] Instance result_bind : MBind result := λ A B f m,
  match m with
  | Ok a => f a
  | Raise e => Raise e
  end.

(** [isinstance(e, ValueError)] and [isinstance(e, pd.errors.ParserError)]. *)
Definition isinstance_ValueError (e : exn) : bool :=
  match e with
  | ValueError | ParserError _ | EmptyDataError => true
  | AttributeError | TypeError => false
  end.

Definition isinstance_ParserError (e : exn) : bool :=
  match e with
  | ParserError _ => true
  | _ => false
  end.

(** [try: body  except <class> as e: handler e] *)
Definition try_except {A} (body : result A) (class : exn → bool)
    (handler : exn → result A) : result A :=
  match body with
  | Ok a => Ok a
  | Raise e => if class e then handler e else Raise e
  end.

(** ** Coordinate extractor *)

(** [s.split(sep)] for a one-character separator: the pieces between
    the separators, always at least one. *)
Fixpoint str_split (sep : ascii) (s : string) : list string :=
  match s with
  | EmptyString => [EmptyString]
  | String c rest =>
      if bool_decide (c = sep) then EmptyString :: str_split sep rest
      else match str_split sep rest with
           | piece :: pieces => String c piece :: pieces
           | [] => [String c EmptyString]
           end
  end.

(** The attribute lookup [coordgeo.split]: a NaN cell is a float and
    has no such method. *)
Definition cell_split (sep : ascii) (cell : label) : result (list string) :=
  match cell with
  | Some s => Ok (str_split sep s)
  | None => Raise AttributeError
  end.

Section Coordinates.
(** The builtin [float] on a [str]: a value, or [None] when it raises
    [ValueError]. *)
Context {F : Type} (float : string → option F).

Definition call_float (token : string) : result F :=
  match float token with
  | Some x => Ok x
  | None => Raise ValueError
  end.

(** [latitude, longitude = map(float, tokens)].  [map] is lazy: the
    unpacking pulls two items, converting each as it is pulled, and
    then asks for a third to see that there is none; a third item is
    converted before the "too many values" [ValueError] is raised. *)
Definition unpack_pair (tokens : list string) : result (F * F) :=
  match tokens with
  | [] => Raise ValueError
  | t1 :: rest1 =>
      latitude ← call_float t1;
      match rest1 with
      | [] => Raise ValueError
      | t2 :: rest2 =>
          longitude ← call_float t2;
          match rest2 with
          | [] => Ok (latitude, longitude)
          | t3 :: _ => _ ← call_float t3; Raise ValueError
          end
      end
  end.

Definition extract_coordinates (coordgeo : label)
    : result (option F * option F) :=
  try_except
    (tokens ← cell_split "," coordgeo;
     '(latitude, longitude) ← unpack_pair tokens;
     Ok (Some latitude, Some longitude))
    isinstance_ValueError
    (λ _, Ok (None, None)).

(** ** Map markers *)

(** A marker of the map, by the location and popup it was made with. *)
Record Marker := {
  location : F * F;
  popup : label
}.

(** [math.isnan] on a float. *)
Context (isnan : F → bool).

(** [folium.Marker(location=[latitude, longitude], popup=center_name)]:
    folium checks the location and raises [ValueError] when a coordinate
    is NaN. *)
Definition folium_Marker (latitude longitude : F) (center_name : label)
    : result Marker :=
  if isnan latitude || isnan longitude then Raise ValueError
  else Ok {| location := (latitude, longitude); popup := center_name |}.

(** [center_name in unique_centers].  The members that matter are the
    strings: a NaN name equals no member of the set, not even a NaN
    added before. *)
Definition name_in (center_name : label) (unique_centers : gset string)
    : bool :=
  match center_name with
  | Some name => bool_decide (name ∈ unique_centers)
  | None => false
  end.

(** [unique_centers.add(center_name)]; a NaN member would never be
    found again and is not recorded. *)
Definition add_name (center_name : label) (unique_centers : gset string)
    : gset string :=
  match center_name with
  | Some name => {[name]} ∪ unique_centers
  | None => unique_centers
  end.

(** The state of the loop: the markers added to the map so far, in
    order, and the set [unique_centers]. *)
Definition map_state : Type := list Marker * gset string.

(** The body of [for index, row in data.iterrows()]. *)
Definition add_center (st : map_state) (row : Row) : result map_state :=
  let center_name := cct_denomination row in
  if negb (name_in center_name st.2) then
    '(latitude, longitude) ← extract_coordinates (coordgeo row);
    m ← match latitude, longitude with
        | Some la, Some lo =>
            marker ← folium_Marker la lo center_name; Ok (st.1 ++ [marker])
        | _, _ => Ok st.1
        end;
    Ok (m, add_name center_name st.2)
  else Ok st.

Fixpoint iterrows_loop (rows : Table) (st : map_state) : result map_state :=
  match rows with
  | [] => Ok st
  | row :: rows' => st' ← add_center st row; iterrows_loop rows' st'
  end.

(** The markers of the returned map. *)
Definition display_inspection_centers_map (data : Table)
    : result (list Marker) :=
  st ← iterrows_loop data ([], ∅); Ok st.1.
End Coordinates.
Arguments Marker F : clear implicits.

(** ** Aggregations *)

(** [Series.unique()]: the values in order of first appearance. *)
Fixpoint unique {A} `{EqDecision A} (l : list A) : list A :=
  match l with
  | [] => []
  | x :: l' => x :: filter (λ y, y ≠ x) (unique l')
  end.

(** [Series.dropna()] *)
Definition dropna {A} (col : list (option A)) : list A := omap id col.

(** Number of cells of [col] holding [k]. *)
Definition count_value (k : string) (col : list label) : nat :=
  length (filter (λ v, v = Some k) col).

(** [Series.value_counts()]: one entry per distinct value, NaN cells
    dropped, largest count first; entries of equal count stay in order of
    first appearance. *)
Definition count_ge (a b : string * nat) : Prop := (b.2 ≤ a.2)%nat.

#[global] Instance count_ge_dec : RelDecision count_ge.
Proof. intros a b. unfold count_ge. apply _. Defined.

#[global] Instance count_ge_total : Total count_ge.
Proof. intros a b. unfold count_ge. lia. Qed.

Definition value_counts (col : list label) : list (string * nat) :=
  merge_sort count_ge
    ((λ k, (k, count_value k col)) <$> unique (dropna col)).





(** ** Timestamps *)

(** A naive [pd.Timestamp], by its calendar fields; [ts_time] is the
    time of day in nanoseconds. *)
Record Timestamp := {
  ts_year : Z;
  ts_month : Z;
  ts_day : Z;
  ts_time : Z
}.

Definition lex (c1 c2 : comparison) : comparison :=
  match c1 with
  | Eq => c2
  | _ => c1
  end.

Definition ts_compare (a b : Timestamp) : comparison :=
  lex (ts_year a ?= ts_year b)%Z
    (lex (ts_month a ?= ts_month b)%Z
       (lex (ts_day a ?= ts_day b)%Z (ts_time a ?= ts_time b)%Z)).

Definition ts_leb (a b : Timestamp) : bool :=
  match ts_compare a b with
  | Gt => false
  | _ => true
  end.

(** [series >= scalar] and [series <= scalar] on datetimes: a comparison
    with [NaT] ([None]) is [False]. *)
Definition datetime_ge (x : option Timestamp) (y : Timestamp) : bool :=
  match x with
  | Some a => ts_leb y a
  | None => false
  end.

Definition datetime_le (x : option Timestamp) (y : Timestamp) : bool :=
  match x with
  | Some a => ts_leb a y
  | None => false
  end.


(** ** What the script draws *)

Inductive st_element :=
  | st_subheader (body : string)
  | st_write (body : string)
  | st_error (body : string)
  | st_bar_chart (bars : list (string * nat))
  | st_line_chart (points : list (string * price))
  | st_altair_count_chart (title : string) (bars : list (string * nat))
  | st_altair_period_chart (data : Table).

Definition create_dept_distribution_chart (data : Table) : list st_element :=
  let department_count := value_counts (cct_code_dept <$> data) in
  [st_subheader "Distribution of Inspection Centers by Department";
   st_bar_chart department_count].

(** [column] stands for [data[column_name]]. *)
Definition create_category_energy_charts (data : Table)
    (column : Row → label) (chart_title : string) : list st_element :=
  let category_count := value_counts (column <$> data) in
  [st_subheader ("Distribution of " +:+ chart_title);
   st_altair_count_chart chart_title category_count].


Section TimePeriod.
(** [pd.to_datetime(cell, format='mixed', errors='coerce')]: the
    timestamp read from the cell, or [NaT] ([None]) when it cannot be
    read; with [errors='coerce'] it does not raise. *)
Context (to_datetime : label → option Timestamp).

(** The boolean mask of line 86. *)
Definition period_mask (start_date end_date : Timestamp) (r : Row) : bool :=
  datetime_ge (to_datetime (date_application_visite r)) start_date
  && datetime_le (to_datetime (date_application_visite r)) end_date.

Definition period_filter (data : Table) (start_date end_date : Timestamp)
    : Table :=
  filter (λ r, period_mask start_date end_date r) data.

(** What the comparisons of line 86 raise on a date column, if anything:
    pandas refuses to compare a column that parsed as tz-aware with the
    naive bounds ([TypeError]).  [None] when the mask is computed. *)
Context (comparison_error : list label → option exn).

End TimePeriod.

(** ** What the renderer draws for the period chart

    Vega-Lite computes the bars of [st_altair_period_chart] from the
    table and the encoding: one group per [yearmonth] of the date, of
    height the mean of the valid prices of the group; a group without a
    valid price has no mean and gets no bar. *)
Section PeriodChartBars.
(** The year and month the [yearmonth] time unit reads from a raw cell
    of the date column, when it reads one. *)
Context (vega_yearmonth : label → option (Z * Z)).

End PeriodChartBars.

(** ** Loader *)

(** What [requests.get(api_url)] returned. *)
Record Response := {
  status_code : Z;
  text : string
}.

(** What the rest of the script does with [data]. *)
Inductive page :=
  | dashboard (data : Table)
  | nothing_loaded (body : list st_element).

Definition nothing_loaded_body : list st_element :=
  [st_write "There is nothing loaded yet...";
   st_write "In this website you can explore a map to find the closest inspection center to you, you can check the address of the center as well as the price for inspection and re-inspection and even more information.";
   st_write "There are several options to use, and some are hidden, don't hesitate to explore this helpful tool."].

(** [if data is not None: ... else: ...] (lines 190 and 270). *)
Definition render_page (data : option Table) : page :=
  match data with
  | Some d => dashboard d
  | None => nothing_loaded nothing_loaded_body
  end.

Section Loader.
(** [pd.read_csv(StringIO(text), low_memory=False)]: the table, or
    the exception it raises. *)
Context (read_csv : string → result Table).

(** The value returned ([None] for Python's [None]) and the elements
    drawn on the way. *)
Definition load_data (response : Response)
    : result (option Table * list st_element) :=
  if bool_decide (status_code response = 200%Z) then
    try_except
      (data ← read_csv (text response); Ok (Some data, []))
      isinstance_ParserError
      (λ e,
         let msg := match e with ParserError d => d | _ => "" end in
         Ok (None, [st_error ("Failed to parse data. Parser error: " +:+ msg)]))
  else
    Ok (None,
        [st_error ("Failed to fetch data. Status code: "
                   +:+ pretty (status_code response))]).

(** Lines 174-178, then the branch on [data]. *)
Definition run_script (load_data_button : bool) (response : Response)
    : result (list st_element * page) :=
  '(data, drawn) ←
    (if load_data_button then load_data response else Ok (None, []));
  Ok (drawn, render_page data).
End Loader.

(** ** Multiselect entries (lines 198, 218, 219) *)

(** The entries a multiselect offers:
    [["All"] + list(data[col].unique())]. *)
Definition multiselect_options (col : Row → label) (data : Table)
    : list label :=
  ALL :: unique (col <$> data).

(** ** Readings of the library parameters used in the examples

    The properties below hold for every behaviour of [float] and
    [pd.to_datetime]; these two readings serve where a concrete table
    is evaluated.  Both cover ASCII text only. *)

(** A Python float: NaN, an infinity, or a finite value taken as the
    rational its literal denotes. *)
Inductive pyfloat :=
  | float_nan
  | float_inf (negative : bool)
  | float_finite (q : Qc).

Definition char_code (c : ascii) : Z := Z.of_nat (nat_of_ascii c).

Definition is_space (c : ascii) : bool :=
  let n := char_code c in
  ((9 <=? n) && (n <=? 13) || (n =? 32))%Z.

Definition digit_of (c : ascii) : option Z :=
  let n := char_code c in
  if ((48 <=? n) && (n <=? 57))%Z then Some (n - 48)%Z else None.

Definition to_lower (c : ascii) : ascii :=
  let n := char_code c in
  if ((65 <=? n) && (n <=? 90))%Z then ascii_of_nat (nat_of_ascii c + 32)
  else c.

Fixpoint lstrip (cs : list ascii) : list ascii :=
  match cs with
  | c :: rest => if is_space c then lstrip rest else cs
  | [] => []
  end.

Definition strip (cs : list ascii) : list ascii :=
  rev (lstrip (rev (lstrip cs))).

(** The longest prefix of the form [digit (["_"] digit)*], as its digits,
    and what follows it. *)
Fixpoint read_digitpart (cs : list ascii) : list Z * list ascii :=
  match cs with
  | c :: rest =>
      match digit_of c with
      | Some d =>
          let '(ds, r) :=
            match rest with
            | u :: (c' :: _) as rest' =>
                if bool_decide (u = "_"%char) && bool_decide (is_Some (digit_of c'))
                then read_digitpart rest'
                else read_digitpart rest
            | _ => read_digitpart rest
            end in
          (d :: ds, r)
      | None => ([], cs)
      end
  | [] => ([], [])
  end.

Definition digits_value (ds : list Z) : Z :=
  foldl (λ acc d, 10 * acc + d)%Z 0%Z ds.

Definition pow10 (e : Z) : Qc :=
  if (0 <=? e)%Z then Qc_of_Z (10 ^ e) else (/ Qc_of_Z (10 ^ (- e)))%Qc.

Definition read_sign (cs : list ascii) : bool * list ascii :=
  match cs with
  | "+"%char :: r => (false, r)
  | "-"%char :: r => (true, r)
  | _ => (false, cs)
  end.

(** [[e|E] [sign] digitpart] up to the end of the text, or nothing. *)
Definition read_exponent (cs : list ascii) : option Z :=
  match cs with
  | [] => Some 0%Z
  | e :: r =>
      if bool_decide (to_lower e = "e"%char) then
        let '(negative, r') := read_sign r in
        match read_digitpart r' with
        | ((_ :: _) as ds, []) =>
            Some (if negative then - digits_value ds else digits_value ds)%Z
        | _ => None
        end
      else None
  end.

(** [number [exponent]] with
    [number ::= [digitpart] "." digitpart | digitpart ["."]]. *)
Definition parse_number (cs : list ascii) : option Qc :=
  let '(ip, r1) := read_digitpart cs in
  let '(fp, r2) :=
    match r1 with
    | "."%char :: r => read_digitpart r
    | _ => ([], r1)
    end in
  match ip ++ fp with
  | [] => None
  | ds =>
      e ← read_exponent r2;
      Some (Qc_of_Z (digits_value ds) * pow10 (e - Z.of_nat (length fp)))%Qc
  end.

(** The least magnitude that rounds to infinity in binary64:
    [2^1024 - 2^970]. *)
Definition overflow_threshold : Qc := Qc_of_Z (2 ^ 1024 - 2 ^ 970).

(** The float of a decimal magnitude and its sign: an infinity from the
    threshold on, the rational itself below it. *)
Definition float_of_magnitude (negative : bool) (q : Qc) : pyfloat :=
  if bool_decide (overflow_threshold <= q)%Qc then float_inf negative
  else float_finite (if negative then - q else q)%Qc.

Definition pyfloat_isnan (x : pyfloat) : bool :=
  match x with
  | float_nan => true
  | _ => false
  end.

(** The builtin [float] on ASCII text: surrounding whitespace is dropped,
    then an optional sign and [inf], [infinity], [nan] in any case, or a
    decimal number. *)
Definition py_float (s : string) : option pyfloat :=
  let '(negative, body) := read_sign (strip (String.list_ascii_of_string s)) in
  let low := String.string_of_list_ascii (to_lower <$> body) in
  if bool_decide (low = "inf" ∨ low = "infinity") then
    Some (float_inf negative)
  else if bool_decide (low = "nan") then Some float_nan
  else
    q ← parse_number body;
    Some (float_of_magnitude negative q).

Definition is_leap (y : Z) : bool :=
  ((y mod 4 =? 0) && (negb (y mod 100 =? 0) || (y mod 400 =? 0)))%Z.

Definition days_in_month (y m : Z) : Z :=
  if bool_decide (m ∈ [1; 3; 5; 7; 8; 10; 12]%Z) then 31%Z
  else if bool_decide (m ∈ [4; 6; 9; 11]%Z) then 30%Z
  else if bool_decide (m = 2%Z) then (if is_leap y then 29%Z else 28%Z)
  else 0%Z.

Definition all_digits (cs : list ascii) : option Z :=
  digits_value <$> mapM digit_of cs.

(** A calendar date written [YYYY-MM-DD], within the range of
    [pd.Timestamp]; midnight of that day. *)
Definition iso_date (s : string) : option Timestamp :=
  match String.list_ascii_of_string s with
  | [y1; y2; y3; y4; "-"%char; m1; m2; "-"%char; d1; d2] =>
      y ← all_digits [y1; y2; y3; y4];
      m ← all_digits [m1; m2];
      d ← all_digits [d1; d2];
      if ((1678 <=? y) && (y <=? 2261) && (1 <=? m) && (m <=? 12)
          && (1 <=? d) && (d <=? days_in_month y m))%Z
      then Some {| ts_year := y; ts_month := m; ts_day := d; ts_time := 0 |}
      else None
  | _ => None
  end.

(** [pd.to_datetime] restricted to such dates: anything else, and a NaN
    cell, reads as [NaT]. *)
Definition iso_to_datetime (cell : label) : option Timestamp :=
  s ← cell; iso_date s.

(** ** Vocabulary of the properties *)

(** The rows a selection keeps in one dimension. *)
Definition selects (col : Row → label) (selection : list label) (r : Row)
    : Prop :=
  ALL ∈ selection ∨ col r ∈ selection.

(** The rows a [FilterSpec] keeps. *)
Definition keeps (F : FilterSpec) (r : Row) : Prop :=
  selects cct_code_dept (selected_departments F) r
  ∧ (more_options F →
     selects cat_vehicule_libelle (selected_vehicle_category F) r
     ∧ selects cat_energie_libelle (selected_energy_type F) r
     ∧ price_mask (price_range F).1 (price_range F).2 r).

#[global] Instance selects_dec col selection r :
  Decision (selects col selection r).
Proof. unfold selects. apply _. Defined.

#[global] Instance keeps_dec F r : Decision (keeps F r).
Proof. unfold keeps. apply _. Defined.

Section MarkerVocabulary.
Context {F : Type} (float : string → option F).

(** What [extract_coordinates] returns on a string, by its tokens. *)
Definition coordinates_of_tokens (tokens : list string)
    : option F * option F :=
  match tokens with
  | [t1; t2] =>
      match float t1, float t2 with
      | Some latitude, Some longitude => (Some latitude, Some longitude)
      | _, _ => (None, None)
      end
  | _ => (None, None)
  end.

(** [math.isnan] on the floats. *)
Context (isnan : F → bool).

(** What a row whose center name is new does to the map: the markers it
    adds (one or none), or the exception it raises. *)
Definition row_outcome (r : Row) : result (list (Marker F)) :=
  '(latitude, longitude) ← extract_coordinates float (coordgeo r);
  match latitude, longitude with
  | Some la, Some lo =>
      marker ← folium_Marker isnan la lo (cct_denomination r); Ok [marker]
  | _, _ => Ok []
  end.

(** What the loop does over [rows], starting from the set [seen]: the
    markers it adds, or the exception that stops it. *)
Fixpoint first_markers (rows : Table) (seen : gset string)
    : result (list (Marker F)) :=
  match rows with
  | [] => Ok []
  | r :: rows' =>
      added ← (if name_in (cct_denomination r) seen then Ok []
               else row_outcome r);
      rest ← first_markers rows' (add_name (cct_denomination r) seen);
      Ok (added ++ rest)
  end.

(** [unique_centers] after the loop has run over [rows]. *)
Definition seen_after (rows : Table) (seen : gset string) : gset string :=
  foldl (λ s r, add_name (cct_denomination r) s) seen rows.

(** A row the loop can always take: its coordinate cell is a string,
    and no coordinate read from it is NaN. *)
Definition readable_row (r : Row) : Prop :=
  is_Some (coordgeo r)
  ∧ ∀ la lo,
      extract_coordinates float (coordgeo r) = Ok (Some la, Some lo) →
      isnan la = false ∧ isnan lo = false.
End MarkerVocabulary.

(** The date of [r] reads as a timestamp within [[start_date, end_date]]. *)
Definition dated_within (to_datetime : label → option Timestamp)
    (start_date end_date : Timestamp) (r : Row) : Prop :=
  ∃ ts, to_datetime (date_application_visite r) = Some ts
        ∧ ts_leb start_date ts ∧ ts_leb ts end_date.

(** Number of occurrences of a character in a string. *)
Fixpoint count_char (c : ascii) (s : string) : nat :=
  match s with
  | EmptyString => 0
  | String c' rest =>
      (if bool_decide (c' = c) then 1 else 0) + count_char c rest
  end.

(** The four steps of the filter pipeline under "Enable more options",
    in the order of the script. *)
Definition filter_steps (F : FilterSpec) : list (Table → Table) :=
  [multiselect_filter cct_code_dept (selected_departments F);
   multiselect_filter cat_vehicule_libelle (selected_vehicle_category F);
   multiselect_filter cat_energie_libelle (selected_energy_type F);
   price_filter (price_range F)].

(** Running a list of steps, first to last. *)
Definition run_steps (steps : list (Table → Table)) (df : Table) : Table :=
  foldl (λ t step, step t) df steps.

(** A step that selects rows by a test on the row alone. *)
Definition row_filter (step : Table → Table) : Prop :=
  ∃ (P : Row → Prop) (dec : ∀ r, Decision (P r)), ∀ t, step t = filter P t.

(** The marker of a row whose coordinates parse, if they do. *)
Definition marker_of_row {F : Type} (float : string → option F) (r : Row)
    : option (Marker F) :=
  match extract_coordinates float (coordgeo r) with
  | Ok (Some la, Some lo) =>
      Some {| location := (la, lo); popup := cct_denomination r |}
  | _ => None
  end.


(** ** Sample tables *)

Definition sample_row (dept : string) (prix : price) (date name coord : string)
    : Row :=
  {| cct_code_dept := Some dept;
     cat_vehicule_libelle := Some "Voiture Particuliere";
     cat_energie_libelle := Some "Essence";
     prix_visite := prix;
     date_application_visite := Some date;
     cct_denomination := Some name;
     coordgeo := Some coord |}.

(** Three centers, the third without a price. *)
Definition priced_50 : Row :=
  sample_row "75" (Some (Qc_of_Z 50)) "2023-05-02" "Centre A" "48.85,2.35".
Definition priced_70 : Row :=
  sample_row "75" (Some (Qc_of_Z 70)) "2023-05-20" "Centre B" "48.86,2.34".
Definition unpriced : Row :=
  sample_row "92" None "2023-06-01" "Centre C" "48.89,2.24".

Definition table_missing_price : Table := [priced_50; priced_70; unpriced].

(** One center name on three rows: first with unreadable coordinates,
    then at two different places. *)
Definition autovision_unreadable : Row :=
  sample_row "13" (Some (Qc_of_Z 65)) "2023-03-10" "Autovision" "bad".
Definition autovision_paris : Row :=
  sample_row "75" (Some (Qc_of_Z 80)) "2023-03-11" "Autovision" "48.85,2.35".
Definition autovision_marseille : Row :=
  sample_row "13" (Some (Qc_of_Z 60)) "2023-03-12" "Autovision" "43.30,5.37".




Definition table_hidden_center : Table :=
  [autovision_unreadable; autovision_paris; autovision_marseille].
Definition table_two_sites : Table :=
  [autovision_paris; autovision_marseille].

(** Two visits of May 2023, priced 10 and 20. *)
Definition visit_10 : Row :=
  sample_row "75" (Some (Qc_of_Z 10)) "2023-05-02" "Centre A" "48.85,2.35".
Definition visit_20 : Row :=
  sample_row "92" (Some (Qc_of_Z 20)) "2023-05-20" "Centre C" "48.89,2.24".

Definition may_first : Timestamp :=
  {| ts_year := 2023; ts_month := 5; ts_day := 1; ts_time := 0 |}.
Definition may_last : Timestamp :=
  {| ts_year := 2023; ts_month := 5; ts_day := 31; ts_time := 0 |}.

(** A stand-in for [pd.read_csv] on three bodies: an empty one, one that
    parses, and a ragged one. *)
Definition ragged_diagnostic : string :=
  "Error tokenizing data. C error: Expected 2 fields in line 3, saw 3".

Definition sample_read_csv (text : string) : result Table :=
  if bool_decide (text = "") then Raise EmptyDataError
  else if bool_decide (text = "centers") then Ok table_missing_price
  else Raise (ParserError ragged_diagnostic).

(** * Properties *)

(** ** Filter engine *)

Section FilterFacts.
Context {A : Type}.
Implicit Types (P Q : A → Prop) (l : list A).

Lemma filter_idemp P `{!∀ x, Decision (P x)} l :
  filter P (filter P l) = filter P l.
Proof.
  rewrite list_filter_filter. apply list_filter_iff. tauto.
Qed.

Lemma filter_ext_in P Q `{!∀ x, Decision (P x), !∀ x, Decision (Q x)} l :
  (∀ x, x ∈ l → P x ↔ Q x) → filter P l = filter Q l.
Proof.
  induction l as [|x l IH]; intros Hext; [done|].
  rewrite !filter_cons.
  rewrite IH by (intros y Hy; apply Hext; by right).
  destruct (Hext x) as [HPQ HQP]; [left|].
  repeat case_decide; tauto.
Qed.

Lemma filter_all P `{!∀ x, Decision (P x)} l :
  (∀ x, x ∈ l → P x) → filter P l = l.
Proof.
  induction l as [|x l IH]; intros Hall; [done|].
  rewrite filter_cons_True by (apply Hall; left).
  f_equal. apply IH. intros y Hy. apply Hall. by right.
Qed.
Lemma filter_none P `{!∀ x, Decision (P x)} l :
  (∀ x, x ∈ l → ¬ P x) → filter P l = [].
Proof.
  induction l as [|x l IH]; intros Hnone; [done|].
  rewrite filter_cons_False by (apply Hnone; left).
  apply IH. intros y Hy. apply Hnone. by right.
Qed.
End FilterFacts.

Lemma multiselect_filter_ALL col selection df :
  ALL ∈ selection → multiselect_filter col selection df = df.
Proof.
  intros HALL. unfold multiselect_filter. by rewrite bool_decide_eq_true_2.
Qed.

Lemma multiselect_filter_selects col selection df :
  multiselect_filter col selection df = filter (selects col selection) df.
Proof.
  unfold multiselect_filter, isin_select, selects. case_bool_decide as HALL.
  - symmetry. apply filter_all. auto.
  - apply list_filter_iff. tauto.
Qed.

Lemma apply_filters_keeps data F :
  apply_filters data F = filter (keeps F) data.
Proof.
  unfold apply_filters, price_filter.
  rewrite !multiselect_filter_selects.
  destruct (more_options F) eqn:Hmore.
  - rewrite !list_filter_filter. apply list_filter_iff.
    intros r. unfold keeps. rewrite Hmore. simpl. tauto.
  - apply list_filter_iff. intros r. unfold keeps. rewrite Hmore. simpl.
    tauto.
Qed.

(** *** Default slider range *)

Lemma foldl_price_min2_acc col a :
  ∃ m, foldl price_min2 (Some a) col = Some m ∧ (m <= a)%Qc.
Proof.
  revert a. induction col as [|x col IH]; intros a; simpl.
  - exists a. split; [done|]. apply Qcle_refl.
  - destruct x as [b|]; simpl; [|apply IH].
    case_bool_decide as Hba.
    + destruct (IH b) as (m & -> & Hm). exists m. split; [done|].
      by apply Qcle_trans with b.
    + apply IH.
Qed.

Lemma foldl_price_min2_elem col acc q :
  Some q ∈ col → ∃ m, foldl price_min2 acc col = Some m ∧ (m <= q)%Qc.
Proof.
  revert acc. induction col as [|x col IH]; intros acc Hin.
  - by apply elem_of_nil in Hin.
  - apply elem_of_cons in Hin as [<-|Hin]; [|by apply IH]. simpl.
    destruct acc as [a|]; simpl; [|apply foldl_price_min2_acc].
    case_bool_decide as Hqa; [apply foldl_price_min2_acc|].
    destruct (foldl_price_min2_acc col a) as (m & -> & Hm).
    exists m. split; [done|]. apply Qcle_trans with a; [done|].
    apply Qclt_le_weak. by apply Qcnot_le_lt.
Qed.

Lemma foldl_price_max2_acc col a :
  ∃ m, foldl price_max2 (Some a) col = Some m ∧ (a <= m)%Qc.
Proof.
  revert a. induction col as [|x col IH]; intros a; simpl.
  - exists a. split; [done|]. apply Qcle_refl.
  - destruct x as [b|]; simpl; [|apply IH].
    case_bool_decide as Hab.
    + destruct (IH b) as (m & -> & Hm). exists m. split; [done|].
      by apply Qcle_trans with b.
    + apply IH.
Qed.

Lemma foldl_price_max2_elem col acc q :
  Some q ∈ col → ∃ m, foldl price_max2 acc col = Some m ∧ (q <= m)%Qc.
Proof.
  revert acc. induction col as [|x col IH]; intros acc Hin.
  - by apply elem_of_nil in Hin.
  - apply elem_of_cons in Hin as [<-|Hin]; [|by apply IH]. simpl.
    destruct acc as [a|]; simpl; [|apply foldl_price_max2_acc].
    case_bool_decide as Hqa; [apply foldl_price_max2_acc|].
    destruct (foldl_price_max2_acc col a) as (m & -> & Hm).
    exists m. split; [done|]. apply Qcle_trans with a; [|done].
    apply Qclt_le_weak. by apply Qcnot_le_lt.
Qed.

(** Within the default range lie exactly the rows that have a price. *)
Lemma default_range_mask data r :
  r ∈ data →
  price_mask (default_price_range data).1 (default_price_range data).2 r
  ↔ is_Some (prix_visite r).
Proof.
  intros Hr. unfold price_mask, default_price_range. simpl.
  destruct (prix_visite r) as [q|] eqn:Hq; simpl.
  - assert (Some q ∈ prix_visite <$> data) as Hin.
    { rewrite <- Hq. by apply list_elem_of_fmap_2. }
    destruct (foldl_price_min2_elem _ None q Hin) as (lo & Hlo & Hle).
    destruct (foldl_price_max2_elem _ None q Hin) as (hi & Hhi & Hge).
    unfold series_min, series_max. rewrite Hlo, Hhi. simpl.
    rewrite !bool_decide_eq_true_2 by done. by split.
  - split; [done|]. by intros [? ?].
Qed.

(** C1 as stated fails: on [table_missing_price], with every multiselect
    at ["All"], the additional filters enabled and the slider at its
    default range (50 to 70), the row without a price is dropped. *)
Lemma default_spec_drops_missing_price :
  apply_filters table_missing_price (default_spec table_missing_price true)
    = [priced_50; priced_70]
  ∧ apply_filters table_missing_price (default_spec table_missing_price true)
    ≠ table_missing_price.
Proof.
  assert (apply_filters table_missing_price
            (default_spec table_missing_price true)
          = [priced_50; priced_70]) as Heq by (vm_compute; reflexivity).
  split; [exact Heq|]. rewrite Heq. discriminate.
Qed.

(** C1, amended: with every multiselect dimension at the ALL sentinel and
    the price slider at its default range, the filter pipeline returns
    the input table when the additional filters are off, and the input
    table without its rows of missing price when they are on; so it is
    the identity on every table in which no price is missing. *)
Theorem default_spec_keeps_priced_rows (T : Table) (more : bool) :
  apply_filters T (default_spec T more)
    = (if more then filter (λ r, is_Some (prix_visite r)) T else T)
  ∧ ((∀ r, r ∈ T → is_Some (prix_visite r)) →
     apply_filters T (default_spec T more) = T).
Proof.
  assert (apply_filters T (default_spec T more)
          = if more then filter (λ r, is_Some (prix_visite r)) T else T)
    as Heq.
  { unfold apply_filters, default_spec, price_filter. simpl.
    rewrite !multiselect_filter_ALL by (unfold ALL; left).
    destruct more; [|done].
    apply filter_ext_in. intros r Hr. by apply default_range_mask. }
  split; [exact Heq|].
  intros Hall. rewrite Heq. destruct more; [|done]. by apply filter_all.
Qed.

Lemma default_spec_keeps_priced_rows_witness :
  (∀ r, r ∈ [priced_50; priced_70] → is_Some (prix_visite r))
  ∧ apply_filters [priced_50; priced_70]
      (default_spec [priced_50; priced_70] true)
    = [priced_50; priced_70].
Proof.
  assert (∀ r, r ∈ [priced_50; priced_70] → is_Some (prix_visite r))
    as Hall.
  { intros r Hr. repeat (apply elem_of_cons in Hr as [->|Hr]); try done.
    by apply elem_of_nil in Hr. }
  split; [exact Hall|].
  exact (proj2 (default_spec_keeps_priced_rows [priced_50; priced_70] true)
           Hall).
Defined.

(** C4: when a multiselect's selection contains the ALL sentinel, the
    filter of that dimension (department, vehicle category, energy type)
    keeps every row, whatever else the selection holds. *)
Theorem ALL_in_selection_is_noop (df : Table) (selection : list label) :
  ALL ∈ selection →
  multiselect_filter cct_code_dept selection df = df
  ∧ multiselect_filter cat_vehicule_libelle selection df = df
  ∧ multiselect_filter cat_energie_libelle selection df = df.
Proof.
  intros HALL. by rewrite !multiselect_filter_ALL.
Qed.

Lemma ALL_in_selection_is_noop_witness :
  ALL ∈ [Some "92"; ALL; Some "Diesel"]
  ∧ multiselect_filter cct_code_dept [Some "92"; ALL; Some "Diesel"]
      table_missing_price = table_missing_price
  ∧ multiselect_filter cat_vehicule_libelle [Some "92"; ALL; Some "Diesel"]
      table_missing_price = table_missing_price
  ∧ multiselect_filter cat_energie_libelle [Some "92"; ALL; Some "Diesel"]
      table_missing_price = table_missing_price.
Proof.
  assert (ALL ∈ [Some "92"; ALL; Some "Diesel"]) as HALL
    by (right; left).
  split; [exact HALL|].
  exact (ALL_in_selection_is_noop table_missing_price _ HALL).
Defined.

(** C10: filtering an already filtered table again with the same
    [FilterSpec] changes nothing. *)
Theorem apply_filters_idempotent (T : Table) (F : FilterSpec) :
  apply_filters (apply_filters T F) F = apply_filters T F.
Proof.
  rewrite !apply_filters_keeps. apply filter_idemp.
Qed.

(** ** Coordinate extractor *)

Lemma Qc_of_this (p q : Qc) : this p = this q → p = q.
Proof. intros H. apply Qc_is_canon. by rewrite H. Qed.

(** A finite float is known by the fraction it reduces to. *)
Lemma float_finite_this (o : option pyfloat) (q : Qc) :
  match o with
  | Some (float_finite p) => this p = this q
  | _ => False
  end →
  o = Some (float_finite q).
Proof.
  destruct o as [[| |p]|]; try done. intros H. do 2 f_equal.
  by apply Qc_of_this.
Qed.

Section CoordinateFacts.
Context {F : Type} (float : string → option F).

Lemma extract_coordinates_str (s : string) :
  extract_coordinates float (Some s)
    = Ok (coordinates_of_tokens float (str_split "," s)).
Proof.
  unfold extract_coordinates, cell_split, coordinates_of_tokens. simpl.
  destruct (str_split "," s) as [|t1 [|t2 [|t3 rest]]]; simpl; [done|..];
    unfold call_float; destruct (float t1); simpl; try done;
    destruct (float t2); simpl; try done;
    destruct (float t3); done.
Qed.

(** A NaN cell is not a string: the call raises, and the handler for
    [ValueError] lets it through. *)
Lemma extract_coordinates_nan :
  extract_coordinates float None = Raise AttributeError.
Proof. done. Qed.
End CoordinateFacts.

(** C3: on every string, [extract_coordinates] returns the two floats
    when the string splits on the comma into exactly two tokens that
    [float] accepts, returns the absent pair otherwise, and raises
    nothing; "46.6,1.9" gives (46.6, 1.9), "bad" and "1,2,3" give the
    absent pair. *)
Theorem extract_coordinates_never_raises :
  (∀ (F : Type) (float : string → option F) (s : string),
     extract_coordinates float (Some s)
       = Ok (match str_split "," s with
             | [t1; t2] =>
                 match float t1, float t2 with
                 | Some latitude, Some longitude =>
                     (Some latitude, Some longitude)
                 | _, _ => (None, None)
                 end
             | _ => (None, None)
             end)
     ∧ ∀ e, extract_coordinates float (Some s) ≠ Raise e)
  ∧ extract_coordinates py_float (Some "46.6,1.9")
      = Ok (Some (float_finite (Q2Qc (466 # 10))),
            Some (float_finite (Q2Qc (19 # 10))))
  ∧ extract_coordinates py_float (Some "bad") = Ok (None, None)
  ∧ extract_coordinates py_float (Some "1,2,3") = Ok (None, None).
Proof.
  split; [|split; [|split]].
  - intros F float s. rewrite extract_coordinates_str. split; [done|].
    intros e. discriminate.
  - rewrite extract_coordinates_str.
    assert (py_float "46.6" = Some (float_finite (Q2Qc (466 # 10)))) as H1.
    { apply float_finite_this. by vm_compute. }
    assert (py_float "1.9" = Some (float_finite (Q2Qc (19 # 10)))) as H2.
    { apply float_finite_this. by vm_compute. }
    change (str_split "," "46.6,1.9") with ["46.6"; "1.9"].
    unfold coordinates_of_tokens. by rewrite H1, H2.
  - rewrite extract_coordinates_str. by vm_compute.
  - rewrite extract_coordinates_str. by vm_compute.
Qed.

(** ** Map markers *)

Section MarkerFacts.
Context {F : Type} (float : string → option F) (isnan : F → bool).
Implicit Types (st : map_state (F:=F)) (seen : gset string).

Lemma add_name_seen name seen :
  name_in name seen = true → add_name name seen = seen.
Proof.
  destruct name as [n|]; simpl; [|done].
  intros Hin%bool_decide_eq_true. apply set_eq. intros x.
  rewrite elem_of_union, elem_of_singleton. split; [|by right].
  by intros [->|?].
Qed.

Lemma name_in_add_name name name' seen :
  name_in name seen = true → name_in name (add_name name' seen) = true.
Proof.
  destruct name as [n|]; simpl; [|done].
  intros Hin%bool_decide_eq_true. apply bool_decide_eq_true_2.
  destruct name'; simpl; [|done]. apply elem_of_union. by right.
Qed.

Lemma name_in_add_same n seen : name_in (Some n) (add_name (Some n) seen) = true.
Proof.
  simpl. apply bool_decide_eq_true_2. apply elem_of_union. left.
  by apply elem_of_singleton.
Qed.

Lemma name_in_add_other n name' seen :
  name' ≠ Some n →
  name_in (Some n) (add_name name' seen) = name_in (Some n) seen.
Proof.
  intros Hne. destruct name' as [n'|]; simpl; [|done].
  apply bool_decide_ext. rewrite elem_of_union, elem_of_singleton.
  split; [|by right]. intros [->|?]; [by destruct Hne|done].
Qed.

(** One turn of the loop, by what the row does when its name is new. *)
Lemma add_center_outcome st r :
  add_center float isnan st r
  = (added ← (if name_in (cct_denomination r) st.2 then Ok []
              else row_outcome float isnan r);
     Ok (st.1 ++ added, add_name (cct_denomination r) st.2)).
Proof.
  unfold add_center, row_outcome.
  destruct (name_in (cct_denomination r) st.2) eqn:Hin; simpl.
  - rewrite app_nil_r, add_name_seen by done. by destruct st.
  - destruct (extract_coordinates float (coordgeo r))
      as [[[la|] [lo|]]|e]; simpl; rewrite ?app_nil_r; try done.
    unfold folium_Marker. by destruct (isnan la || isnan lo).
Qed.

Lemma iterrows_loop_markers rows st :
  iterrows_loop float isnan rows st
  = (added ← first_markers float isnan rows st.2;
     Ok (st.1 ++ added, seen_after rows st.2)).
Proof.
  revert st. induction rows as [|r rows IH]; intros st; simpl.
  - rewrite app_nil_r. by destruct st.
  - rewrite add_center_outcome.
    destruct (if name_in (cct_denomination r) st.2 then Ok []
              else row_outcome float isnan r) as [added|e]; simpl; [|done].
    rewrite IH. simpl.
    destruct (first_markers float isnan rows
                (add_name (cct_denomination r) st.2)) as [rest|e];
      simpl; [|done].
    by rewrite app_assoc.
Qed.

Lemma display_markers data :
  display_inspection_centers_map float isnan data
  = first_markers float isnan data ∅.
Proof.
  unfold display_inspection_centers_map. rewrite iterrows_loop_markers.
  simpl. by destruct (first_markers float isnan data ∅).
Qed.

(** The markers a row adds are the marker [extract_coordinates] gives
    it, when it gives one. *)
Lemma row_outcome_marker r added :
  row_outcome float isnan r = Ok added →
  added = option_list (marker_of_row float r).
Proof.
  unfold row_outcome, marker_of_row.
  destruct (extract_coordinates float (coordgeo r))
    as [[[la|] [lo|]]|e]; simpl; try (by intros [= <-]); try done.
  unfold folium_Marker. destruct (isnan la || isnan lo); simpl; [done|].
  by intros [= <-].
Qed.

Lemma marker_of_row_popup r mk :
  marker_of_row float r = Some mk → popup mk = cct_denomination r.
Proof.
  unfold marker_of_row.
  destruct (extract_coordinates float (coordgeo r))
    as [[[la|] [lo|]]|e]; try done.
  by intros [= <-].
Qed.

Lemma row_outcome_popup r added mk :
  row_outcome float isnan r = Ok added → mk ∈ added →
  popup mk = cct_denomination r.
Proof.
  intros ->%row_outcome_marker Hmk. apply marker_of_row_popup.
  destruct (marker_of_row float r) as [mk'|]; simpl in Hmk.
  - by apply list_elem_of_singleton in Hmk as ->.
  - by apply elem_of_nil in Hmk.
Qed.

(** The two parts of a successful run over [r :: rows]. *)
Lemma first_markers_cons r rows seen ms :
  first_markers float isnan (r :: rows) seen = Ok ms →
  ∃ added rest,
    (if name_in (cct_denomination r) seen then Ok []
     else row_outcome float isnan r) = Ok added
    ∧ first_markers float isnan rows (add_name (cct_denomination r) seen)
      = Ok rest
    ∧ ms = added ++ rest.
Proof.
  simpl.
  destruct (if name_in (cct_denomination r) seen then Ok []
            else row_outcome float isnan r) as [added|e]; simpl; [|done].
  destruct (first_markers float isnan rows _) as [rest|e]; simpl; [|done].
  intros [= <-]. by exists added, rest.
Qed.

Lemma first_markers_seen rows seen n ms mk :
  name_in (Some n) seen = true →
  first_markers float isnan rows seen = Ok ms →
  mk ∈ ms → popup mk ≠ Some n.
Proof.
  revert seen ms. induction rows as [|r rows IH]; intros seen ms Hn.
  - intros [= <-] Hmk. by apply elem_of_nil in Hmk.
  - intros (added & rest & Hadded & Hrest & ->)%first_markers_cons.
    rewrite elem_of_app. intros [Hmk|Hmk].
    + destruct (name_in (cct_denomination r) seen) eqn:Hr.
      * injection Hadded as <-. by apply elem_of_nil in Hmk.
      * rewrite (row_outcome_popup r added mk Hadded Hmk).
        intros Heq. rewrite Heq in Hr. congruence.
    + eapply IH; [|exact Hrest|exact Hmk]. by apply name_in_add_name.
Qed.

Lemma first_markers_from_rows rows seen ms mk :
  first_markers float isnan rows seen = Ok ms → mk ∈ ms →
  ∃ r, r ∈ rows ∧ marker_of_row float r = Some mk.
Proof.
  revert seen ms. induction rows as [|r rows IH]; intros seen ms.
  - intros [= <-] Hmk. by apply elem_of_nil in Hmk.
  - intros (added & rest & Hadded & Hrest & ->)%first_markers_cons.
    rewrite elem_of_app. intros [Hmk|Hmk].
    + exists r. split; [left|].
      destruct (name_in (cct_denomination r) seen).
      * injection Hadded as <-. by apply elem_of_nil in Hmk.
      * apply row_outcome_marker in Hadded as ->.
        destruct (marker_of_row float r) as [mk'|]; simpl in Hmk.
        -- by apply list_elem_of_singleton in Hmk as ->.
        -- by apply elem_of_nil in Hmk.
    + destruct (IH _ _ Hrest Hmk) as (r' & Hr' & Hmk').
      exists r'. split; [by right|done].
Qed.

(** The markers of a name are those of the first row that bears it. *)
Lemma first_markers_first pre r post seen n ms :
  cct_denomination r = Some n →
  (∀ r', r' ∈ pre → cct_denomination r' ≠ Some n) →
  name_in (Some n) seen = false →
  first_markers float isnan (pre ++ r :: post) seen = Ok ms →
  filter (λ mk, popup mk = Some n) ms = option_list (marker_of_row float r).
Proof.
  intros Hr. revert seen ms.
  induction pre as [|r0 pre IH]; intros seen ms Hpre Hnew.
  - intros (added & rest & Hadded & Hrest & ->)%first_markers_cons.
    rewrite Hr, Hnew in Hadded.
    pose proof (row_outcome_marker r added Hadded) as <-.
    rewrite filter_app, (filter_all _ added).
    + rewrite filter_none; [by rewrite app_nil_r|].
      intros mk Hmk. eapply first_markers_seen; [|exact Hrest|exact Hmk].
      rewrite Hr. apply name_in_add_same.
    + intros mk Hmk. rewrite <- Hr.
      by apply (row_outcome_popup r added).
  - simpl app.
    intros (added & rest & Hadded & Hrest & ->)%first_markers_cons.
    assert (cct_denomination r0 ≠ Some n) as Hne by (apply Hpre; left).
    rewrite filter_app, filter_none.
    + simpl. apply (IH _ _ (λ r' Hr', Hpre r' (list_elem_of_further _ _ _ Hr')))
        in Hrest; [done|]. by rewrite name_in_add_other.
    + intros mk Hmk Hpopup. apply Hne. rewrite <- Hpopup.
      destruct (name_in (cct_denomination r0) seen).
      * injection Hadded as <-. by apply elem_of_nil in Hmk.
      * symmetry. by apply (row_outcome_popup r0 added).
Qed.

(** No row of the name, no marker of the name. *)
Lemma first_markers_absent_name rows seen n ms mk :
  (∀ r, r ∈ rows → cct_denomination r ≠ Some n) →
  first_markers float isnan rows seen = Ok ms →
  mk ∈ ms → popup mk ≠ Some n.
Proof.
  intros Hrows Hms Hmk Hpopup.
  destruct (first_markers_from_rows _ _ _ _ Hms Hmk) as (r & Hr & Hmr).
  apply (Hrows r Hr). rewrite <- Hpopup. symmetry.
  by apply marker_of_row_popup.
Qed.

Lemma readable_row_outcome r :
  readable_row float isnan r → ∃ added, row_outcome float isnan r = Ok added.
Proof.
  intros [[s Hs] Hnan]. unfold row_outcome. rewrite Hs in *.
  rewrite extract_coordinates_str in *. simpl.
  destruct (coordinates_of_tokens float (str_split "," s))
    as [[la|] [lo|]]; try by eexists.
  destruct (Hnan la lo eq_refl) as [Hla Hlo].
  unfold folium_Marker. rewrite Hla, Hlo. by eexists.
Qed.

(** The loop returns on every table of readable rows. *)
Lemma first_markers_readable rows seen :
  (∀ r, r ∈ rows → readable_row float isnan r) →
  ∃ ms, first_markers float isnan rows seen = Ok ms.
Proof.
  revert seen. induction rows as [|r rows IH]; intros seen Hall; simpl.
  - by eexists.
  - destruct (IH (add_name (cct_denomination r) seen)) as [rest ->];
      [intros r' Hr'; apply Hall; by right|].
    destruct (name_in (cct_denomination r) seen); simpl; [by eexists|].
    destruct (readable_row_outcome r) as [added ->]; [apply Hall; left|].
    by eexists.
Qed.

Lemma first_markers_NoDup rows seen ms :
  first_markers float isnan rows seen = Ok ms →
  NoDup (dropna (popup <$> ms)).
Proof.
  revert seen ms. induction rows as [|r rows IH]; intros seen ms.
  - intros [= <-]. constructor.
  - intros (added & rest & Hadded & Hrest & ->)%first_markers_cons.
    rewrite fmap_app. unfold dropna. rewrite omap_app.
    apply NoDup_app. split; [|split; [|by eapply IH]].
    + destruct (name_in (cct_denomination r) seen).
      * injection Hadded as <-. constructor.
      * apply row_outcome_marker in Hadded as ->.
        destruct (marker_of_row float r) as [mk|]; simpl; [|constructor].
        destruct (popup mk); simpl; [apply NoDup_singleton|constructor].
    + intros n (p & Hp & Hid)%list_elem_of_omap
        (p' & Hp' & Hid')%list_elem_of_omap.
      simpl in Hid, Hid'. subst p p'.
      apply list_elem_of_fmap in Hp as (mk & Hpopup & Hmk).
      apply list_elem_of_fmap in Hp' as (mk' & Hpopup' & Hmk').
      destruct (name_in (cct_denomination r) seen) eqn:Hr.
      * injection Hadded as <-. by apply elem_of_nil in Hmk.
      * pose proof (row_outcome_popup r added mk Hadded Hmk) as Hname.
        eapply first_markers_seen; [|exact Hrest|exact Hmk'|done].
        rewrite <- Hname, <- Hpopup. apply name_in_add_same.
Qed.

Lemma first_markers_length rows seen ms :
  first_markers float isnan rows seen = Ok ms →
  (length ms ≤ length rows)%nat.
Proof.
  revert seen ms. induction rows as [|r rows IH]; intros seen ms.
  - by intros [= <-].
  - intros (added & rest & Hadded & Hrest & ->)%first_markers_cons.
    rewrite length_app. apply IH in Hrest. cbn [length].
    assert (length added ≤ 1)%nat; [|lia].
    destruct (name_in (cct_denomination r) seen).
    + injection Hadded as <-. simpl. lia.
    + apply row_outcome_marker in Hadded as ->.
      destruct (marker_of_row float r); simpl; lia.
Qed.

Lemma first_markers_app rows1 rows2 seen :
  first_markers float isnan (rows1 ++ rows2) seen
  = (ms1 ← first_markers float isnan rows1 seen;
     ms2 ← first_markers float isnan rows2 (seen_after rows1 seen);
     Ok (ms1 ++ ms2)).
Proof.
  revert seen. induction rows1 as [|r rows1 IH]; intros seen; simpl.
  - by destruct (first_markers float isnan rows2 seen).
  - destruct (if name_in (cct_denomination r) seen then Ok []
              else row_outcome float isnan r) as [added|e]; simpl; [|done].
    rewrite IH.
    destruct (first_markers float isnan rows1 _) as [ms1|e]; simpl; [|done].
    destruct (first_markers float isnan rows2 _) as [ms2|e]; simpl; [|done].
    by rewrite app_assoc.
Qed.

Lemma name_in_seen_after rows seen name :
  name_in name seen = true → name_in name (seen_after rows seen) = true.
Proof.
  revert seen. induction rows as [|r rows IH]; intros seen Hin; [done|].
  apply IH. by apply name_in_add_name.
Qed.

Lemma name_in_seen_after_row rows seen r n :
  r ∈ rows → cct_denomination r = Some n →
  name_in (Some n) (seen_after rows seen) = true.
Proof.
  revert seen. induction rows as [|r0 rows IH]; intros seen Hr Hn.
  - by apply elem_of_nil in Hr.
  - change (seen_after (r0 :: rows) seen)
      with (seen_after rows (add_name (cct_denomination r0) seen)).
    apply elem_of_cons in Hr as [->|Hr]; [|by apply IH].
    apply name_in_seen_after. rewrite Hn. apply name_in_add_same.
Qed.

Lemma first_markers_all_seen rows seen :
  (∀ r, r ∈ rows → name_in (cct_denomination r) seen = true) →
  first_markers float isnan rows seen = Ok [].
Proof.
  induction rows as [|r rows IH]; intros Hall; [done|].
  cbn [first_markers].
  rewrite (Hall r) by left. rewrite add_name_seen by (apply Hall; left).
  rewrite IH; [done|]. intros r' Hr'. apply Hall. by right.
Qed.

End MarkerFacts.

(** C5 as stated fails: [table_hidden_center] holds two rows of the same
    center name with different valid coordinates, and the map gets no
    marker at all, because an earlier row of that name has unreadable
    coordinates. *)
Lemma same_name_rows_can_yield_no_marker :
  autovision_paris ∈ table_hidden_center
  ∧ autovision_marseille ∈ table_hidden_center
  ∧ cct_denomination autovision_paris = cct_denomination autovision_marseille
  ∧ (∃ c1 c2 : pyfloat * pyfloat,
       extract_coordinates py_float (coordgeo autovision_paris)
         = Ok (Some c1.1, Some c1.2)
       ∧ extract_coordinates py_float (coordgeo autovision_marseille)
         = Ok (Some c2.1, Some c2.2)
       ∧ c1 ≠ c2)
  ∧ display_inspection_centers_map py_float pyfloat_isnan table_hidden_center
    = Ok [].
Proof.
  split; [right; left|]. split; [right; right; left|]. split; [done|].
  split.
  - exists (float_finite (Q2Qc (4885 # 100)), float_finite (Q2Qc (235 # 100))),
           (float_finite (Q2Qc (4330 # 100)), float_finite (Q2Qc (537 # 100))).
    assert (∀ s n, match py_float s with
                   | Some (float_finite p) => this p = this (Q2Qc n)
                   | _ => False
                   end → py_float s = Some (float_finite (Q2Qc n))) as Hfl
      by (intros s n; apply float_finite_this).
    split; [|split].
    + change (coordgeo autovision_paris) with (Some "48.85,2.35").
      rewrite extract_coordinates_str.
      change (str_split "," "48.85,2.35") with ["48.85"; "2.35"].
      unfold coordinates_of_tokens.
      rewrite (Hfl "48.85" (4885 # 100)), (Hfl "2.35" (235 # 100));
        by vm_compute.
    + change (coordgeo autovision_marseille) with (Some "43.30,5.37").
      rewrite extract_coordinates_str.
      change (str_split "," "43.30,5.37") with ["43.30"; "5.37"].
      unfold coordinates_of_tokens.
      rewrite (Hfl "43.30" (4330 # 100)), (Hfl "5.37" (537 # 100));
        by vm_compute.
    + intros Heq.
      apply (f_equal (λ c : pyfloat * pyfloat,
                        match c.1 with
                        | float_finite q => Qnum (this q)
                        | _ => 0%Z
                        end)) in Heq.
      by vm_compute in Heq.
  - rewrite display_markers. by vm_compute.
Qed.

(** C5, amended: the map-marker builder deduplicates by center name.
    Whenever it returns a map, the markers carrying a given center name
    are: exactly one, at the coordinates of the first row bearing that
    name, when that row's coordinates are valid; none when they are
    absent.  Later rows of the same name add nothing, and a row whose
    coordinates are absent produces no marker.  The builder returns a
    map for every table whose coordinate cells are strings that yield no
    NaN coordinate (on an empty cell or a NaN coordinate of a row with a
    new name it raises instead). *)
Theorem one_marker_from_first_row {F : Type} (float : string → option F)
    (isnan : F → bool) (pre post : Table) (r : Row) (name : string) :
  cct_denomination r = Some name →
  (∀ r', r' ∈ pre → cct_denomination r' ≠ Some name) →
  (∀ m, display_inspection_centers_map float isnan (pre ++ r :: post) = Ok m →
        filter (λ mk, popup mk = Some name) m
        = match extract_coordinates float (coordgeo r) with
          | Ok (Some la, Some lo) =>
              [{| location := (la, lo); popup := Some name |}]
          | _ => []
          end)
  ∧ ((∀ r', r' ∈ pre ++ r :: post → readable_row float isnan r') →
     ∃ m, display_inspection_centers_map float isnan (pre ++ r :: post)
          = Ok m)
  ∧ (∀ st : map_state,
       extract_coordinates float (coordgeo r) = Ok (None, None) →
       ∃ seen', add_center float isnan st r = Ok (st.1, seen')).
Proof.
  intros Hname Hpre. split; [|split].
  - intros m. rewrite display_markers. intros Hm.
    rewrite (first_markers_first float isnan pre r post ∅ name m)
      by done.
    unfold marker_of_row. rewrite Hname.
    by destruct (extract_coordinates float (coordgeo r))
      as [[[la|] [lo|]]|e].
  - intros Hall. rewrite display_markers.
    by apply first_markers_readable.
  - intros st Habsent. rewrite add_center_outcome.
    destruct (name_in (cct_denomination r) st.2); simpl.
    + eexists. by rewrite app_nil_r.
    + unfold row_outcome. rewrite Habsent. simpl. eexists.
      by rewrite app_nil_r.
Qed.

Lemma one_marker_from_first_row_witness :
  cct_denomination autovision_paris = Some "Autovision"
  ∧ (∀ r', r' ∈ [] → cct_denomination r' ≠ Some "Autovision")
  ∧ ∃ m, display_inspection_centers_map py_float pyfloat_isnan
           table_two_sites = Ok m
         ∧ filter (λ mk, popup mk = Some "Autovision") m
           = match extract_coordinates py_float (Some "48.85,2.35") with
             | Ok (Some la, Some lo) =>
                 [{| location := (la, lo); popup := Some "Autovision" |}]
             | _ => []
             end.
Proof.
  assert (cct_denomination autovision_paris = Some "Autovision") as Hname
    by reflexivity.
  assert (∀ r', r' ∈ [] → cct_denomination r' ≠ Some "Autovision") as Hpre
    by (intros r' Hin; by apply elem_of_nil in Hin).
  split; [exact Hname|]. split; [exact Hpre|].
  destruct (one_marker_from_first_row py_float pyfloat_isnan []
              [autovision_marseille] autovision_paris "Autovision"
              Hname Hpre) as (Hmarkers & Hreturns & _).
  destruct Hreturns as [m Hm].
  { intros r' Hr'.
    repeat (apply elem_of_cons in Hr' as [->|Hr']);
      [| |by apply elem_of_nil in Hr'].
    - split; [by eexists|]. intros la lo Heq. vm_compute in Heq.
      by injection Heq as <- <-.
    - split; [by eexists|]. intros la lo Heq. vm_compute in Heq.
      by injection Heq as <- <-. }
  exists m. split; [exact Hm|]. exact (Hmarkers m Hm).
Defined.

(** C6: a center name enters [unique_centers] even when its coordinate
    string does not parse; so when the first row bearing a name has
    malformed coordinates, no marker of that name is ever produced,
    whatever the later rows of that name hold: none is on the returned
    map, and none is on the map of any initial part of the table. *)
Theorem unreadable_first_row_hides_center {F : Type}
    (float : string → option F) (isnan : F → bool) (pre post : Table)
    (r : Row) (name : string) :
  cct_denomination r = Some name →
  (∀ r', r' ∈ pre → cct_denomination r' ≠ Some name) →
  extract_coordinates float (coordgeo r) = Ok (None, None) →
  (∀ st : map_state (F:=F),
     name ∉ st.2 →
     add_center float isnan st r = Ok (st.1, {[name]} ∪ st.2))
  ∧ (∀ k m,
       display_inspection_centers_map float isnan
         (take k (pre ++ r :: post)) = Ok m →
       ∀ mk, mk ∈ m → popup mk ≠ Some name)
  ∧ (∀ m, display_inspection_centers_map float isnan (pre ++ r :: post)
          = Ok m →
          ∀ mk, mk ∈ m → popup mk ≠ Some name)
  ∧ ((∀ r', r' ∈ pre ++ r :: post → readable_row float isnan r') →
     ∃ m, display_inspection_centers_map float isnan (pre ++ r :: post)
          = Ok m).
Proof.
  intros Hname Hpre Habsent.
  assert (marker_of_row float r = None) as Hnone
    by (unfold marker_of_row; by rewrite Habsent).
  assert (∀ post' m,
            display_inspection_centers_map float isnan (pre ++ r :: post')
            = Ok m →
            ∀ mk, mk ∈ m → popup mk ≠ Some name) as Hwhole.
  { intros post' m. rewrite display_markers. intros Hm mk Hmk Hpopup.
    assert (mk ∈ filter (λ mk, popup mk = Some name) m) as Hin
      by (by apply list_elem_of_filter).
    rewrite (first_markers_first float isnan pre r post' ∅ name m)
      in Hin by done.
    rewrite Hnone in Hin. by apply elem_of_nil in Hin. }
  split; [|split; [|split]].
  - intros st Hnew. rewrite add_center_outcome, Hname. simpl.
    rewrite bool_decide_eq_false_2 by done.
    unfold row_outcome. rewrite Habsent. simpl. by rewrite app_nil_r.
  - intros k m.
    destruct (decide (k ≤ length pre)%nat) as [Hk|Hk].
    + rewrite take_app_le by done. rewrite display_markers.
      intros Hm mk Hmk.
      eapply first_markers_absent_name; [|exact Hm|exact Hmk].
      intros r' Hr'. apply Hpre.
      by apply (subseteq_take k pre).
    + rewrite take_app_ge by lia.
      destruct (k - length pre)%nat as [|k'] eqn:Hk'; [lia|].
      simpl take. apply Hwhole.
  - apply Hwhole.
  - intros Hall. rewrite display_markers.
    by apply first_markers_readable.
Qed.

Lemma unreadable_first_row_hides_center_witness :
  cct_denomination autovision_unreadable = Some "Autovision"
  ∧ (∀ r', r' ∈ [] → cct_denomination r' ≠ Some "Autovision")
  ∧ extract_coordinates py_float (coordgeo autovision_unreadable)
    = Ok (None, None)
  ∧ display_inspection_centers_map py_float pyfloat_isnan
      table_hidden_center = Ok []
  ∧ ∀ mk, mk ∈ [] → popup (F:=pyfloat) mk ≠ Some "Autovision".
Proof.
  assert (cct_denomination autovision_unreadable = Some "Autovision")
    as Hname by reflexivity.
  assert (∀ r', r' ∈ [] → cct_denomination r' ≠ Some "Autovision")
    as Hpre by (intros r' Hin; by apply elem_of_nil in Hin).
  assert (extract_coordinates py_float (coordgeo autovision_unreadable)
          = Ok (None, None)) as Habsent by (vm_compute; reflexivity).
  assert (display_inspection_centers_map py_float pyfloat_isnan
            table_hidden_center = Ok []) as Hmap.
  { rewrite display_markers. by vm_compute. }
  split; [exact Hname|]. split; [exact Hpre|]. split; [exact Habsent|].
  split; [exact Hmap|].
  exact (proj1 (proj2 (proj2
    (unreadable_first_row_hides_center py_float pyfloat_isnan []
       [autovision_paris; autovision_marseille] autovision_unreadable
       "Autovision" Hname Hpre Habsent))) [] Hmap).
Defined.

(** ** Aggregations *)

Section UniqueFacts.
Context {A : Type} `{EqDecision A}.
Implicit Types (l ks : list A) (x : A).

Lemma elem_of_unique l x : x ∈ unique l ↔ x ∈ l.
Proof.
  induction l as [|y l IH]; simpl; [done|].
  rewrite !elem_of_cons, list_elem_of_filter, IH.
  destruct (decide (x = y)); tauto.
Qed.

Lemma NoDup_unique l : NoDup (unique l).
Proof.
  induction l as [|y l IH]; simpl; [constructor|].
  apply NoDup_cons. split; [|by apply NoDup_filter].
  rewrite list_elem_of_filter. by intros [Hne _].
Qed.

Lemma sum_list_with_ext_in (f g : A → nat) ks :
  (∀ k, k ∈ ks → f k = g k) → sum_list_with f ks = sum_list_with g ks.
Proof.
  induction ks as [|k ks IH]; intros Hext; simpl; [done|].
  rewrite (Hext k) by left. rewrite IH; [done|].
  intros k' Hk'. apply Hext. by right.
Qed.

(** A sum over distinct keys, with the term of [x] taken out. *)
Lemma sum_list_with_take_out (f : A → nat) x ks :
  NoDup ks →
  sum_list_with f ks
  = (if decide (x ∈ ks) then f x else 0)
    + sum_list_with f (filter (λ k, k ≠ x) ks).
Proof.
  induction 1 as [|k ks Hk Hnd IH]; simpl; [done|].
  rewrite filter_cons. destruct (decide (k = x)) as [->|Hne].
  - rewrite decide_True by left. rewrite decide_False by (by intros Hxx).
    rewrite IH. rewrite (decide_False (P := x ∈ ks)) by done. lia.
  - rewrite (decide_True (P := k ≠ x)) by done. simpl. rewrite IH.
    destruct (decide (x ∈ ks)) as [Hin|Hout].
    + rewrite decide_True by (by right). lia.
    + rewrite decide_False; [lia|].
      rewrite elem_of_cons. intros [->|Hin]; [by apply Hne|by apply Hout].
Qed.
End UniqueFacts.

Lemma count_value_cons_None k col :
  count_value k (None :: col) = count_value k col.
Proof. unfold count_value. by rewrite filter_cons_False. Qed.

Lemma count_value_cons_same k col :
  count_value k (Some k :: col) = S (count_value k col).
Proof. unfold count_value. by rewrite filter_cons_True. Qed.

Lemma count_value_cons_other k x col :
  k ≠ x → count_value k (Some x :: col) = count_value k col.
Proof.
  intros Hne. unfold count_value. rewrite filter_cons_False; [done|].
  intros Heq. apply Hne. by injection Heq.
Qed.

Lemma count_value_absent k col : k ∉ dropna col → count_value k col = 0.
Proof.
  intros Hout. unfold count_value. rewrite filter_none; [done|].
  intros v Hv ->. apply Hout. unfold dropna. apply list_elem_of_omap.
  by exists (Some k).
Qed.

(** The counts of the distinct values add up to the number of cells
    that hold a value. *)
Lemma count_value_total col :
  sum_list_with (λ k, count_value k col) (unique (dropna col))
  = length (dropna col).
Proof.
  induction col as [|[x|] col IH]; simpl; [done| |].
  - change (dropna (Some x :: col)) with (x :: dropna col). simpl.
    rewrite count_value_cons_same.
    rewrite (sum_list_with_ext_in _ (λ k, count_value k col)).
    + rewrite <- IH.
      rewrite (sum_list_with_take_out _ x (unique (dropna col)))
        by apply NoDup_unique.
      case_decide as Hx; [lia|].
      rewrite elem_of_unique in Hx. rewrite count_value_absent by done. lia.
    + intros k [Hne _]%list_elem_of_filter.
      by apply count_value_cons_other.
  - change (dropna (None :: col)) with (dropna col).
    rewrite <- IH. apply sum_list_with_ext_in.
    intros k _. apply count_value_cons_None.
Qed.

Lemma sum_list_counts (c : string → nat) (ks : list string) :
  sum_list (((λ k, (k, c k)) <$> ks).*2) = sum_list_with c ks.
Proof.
  induction ks as [|k ks IH]; [done|].
  rewrite !fmap_cons. simpl. f_equal. exact IH.
Qed.

Lemma length_dropna_column (column : Row → label) (data : Table) :
  length (dropna (column <$> data))
  = length (filter (λ r, is_Some (column r)) data).
Proof.
  induction data as [|r data IH]; [done|].
  rewrite fmap_cons, filter_cons. unfold dropna in *.
  case_decide as Hsome.
  - destruct Hsome as [v Hv]. simpl. rewrite Hv. simpl. f_equal. exact IH.
  - destruct (column r) as [v|] eqn:Hv; [by destruct Hsome|].
    simpl. exact IH.
Qed.

(** Each entry of [value_counts] is a value of the column with the
    number of its cells. *)
Lemma elem_of_value_counts col k n :
  (k, n) ∈ value_counts col ↔ Some k ∈ col ∧ n = count_value k col.
Proof.
  unfold value_counts. rewrite merge_sort_Permutation, list_elem_of_fmap.
  split.
  - intros (k' & Heq & Hk'). injection Heq as -> ->. split; [|done].
    rewrite elem_of_unique in Hk'. unfold dropna in Hk'.
    rewrite list_elem_of_omap in Hk'. destruct Hk' as (v & Hv & Hid).
    simpl in Hid. by subst v.
  - intros [Hk ->]. exists k. split; [done|].
    rewrite elem_of_unique. unfold dropna. rewrite list_elem_of_omap.
    by exists (Some k).
Qed.

Lemma value_counts_sorted col : Sorted count_ge (value_counts col).
Proof. apply (Sorted_merge_sort count_ge). Qed.

(** C9: on an empty table the count-by-category aggregation is empty
    (the chart functions draw an empty chart rather than fail), and on
    every table the counts of all groups add up to the number of rows
    whose category cell is not null. *)
Theorem value_counts_sum (data : Table) (column : Row → label) :
  value_counts (column <$> []) = []
  ∧ create_dept_distribution_chart []
    = [st_subheader "Distribution of Inspection Centers by Department";
       st_bar_chart []]
  ∧ (∀ chart_title,
       create_category_energy_charts [] column chart_title
       = [st_subheader ("Distribution of " +:+ chart_title);
          st_altair_count_chart chart_title []])
  ∧ sum_list ((value_counts (column <$> data)).*2)
    = length (filter (λ r, is_Some (column r)) data).
Proof.
  split; [done|]. split; [done|]. split; [done|].
  unfold value_counts. rewrite merge_sort_Permutation.
  rewrite sum_list_counts, count_value_total.
  apply length_dropna_column.
Qed.

Section MeanPerKeyFacts.
Context {K : Type} `{EqDecision K}.
Implicit Types (key : Row → option K) (keys : list K) (df : Table).


End MeanPerKeyFacts.





(** ** Time-period chart *)

Section TimePeriodFacts.
Context (to_datetime : label → option Timestamp).

Lemma period_mask_within start_date end_date r :
  period_mask to_datetime start_date end_date r
  ↔ dated_within to_datetime start_date end_date r.
Proof.
  unfold period_mask, dated_within, datetime_ge, datetime_le.
  destruct (to_datetime (date_application_visite r)) as [ts|].
  - rewrite andb_True. split.
    + intros [Hge Hle]. by exists ts.
    + intros (ts' & Heq & Hge & Hle). injection Heq as <-. by split.
  - simpl. split; [done|]. by intros (ts' & Heq & _).
Qed.

End TimePeriodFacts.

Section PeriodChartBarsFacts.
Context (vega_yearmonth : label → option (Z * Z)).



End PeriodChartBarsFacts.



(** ** Loader *)

Section LoaderFacts.
Context (read_csv : string → result Table).

Lemma load_data_not_200 response :
  status_code response ≠ 200%Z →
  load_data read_csv response
  = Ok (None,
        [st_error ("Failed to fetch data. Status code: "
                   +:+ pretty (status_code response))]).
Proof.
  intros Hstatus. unfold load_data. by rewrite bool_decide_eq_false_2.
Qed.

Lemma load_data_200 response :
  status_code response = 200%Z →
  load_data read_csv response
  = match read_csv (text response) with
    | Ok data => Ok (Some data, [])
    | Raise (ParserError d) =>
        Ok (None, [st_error ("Failed to parse data. Parser error: " +:+ d)])
    | Raise e => Raise e
    end.
Proof.
  intros Hstatus. unfold load_data. rewrite bool_decide_eq_true_2 by done.
  by destruct (read_csv (text response)) as [data|[]].
Qed.
End LoaderFacts.

(** C8: the loader returns a table exactly when the status is 200 and
    the body parses.  On any other status it draws an error message that
    carries the status code, and on a parser error one that carries the
    parser's diagnostic; in both cases it returns no table after that
    single request, and the script shows the nothing-loaded page. *)
Theorem load_data_outcomes (read_csv : string → result Table)
    (response : Response) :
  (∀ data drawn,
     load_data read_csv response = Ok (Some data, drawn)
     ↔ status_code response = 200%Z
       ∧ read_csv (text response) = Ok data ∧ drawn = [])
  ∧ (status_code response ≠ 200%Z →
     let message :=
       st_error ("Failed to fetch data. Status code: "
                 +:+ pretty (status_code response)) in
     load_data read_csv response = Ok (None, [message])
     ∧ run_script read_csv true response
       = Ok ([message], nothing_loaded nothing_loaded_body))
  ∧ (∀ diagnostic,
       status_code response = 200%Z →
       read_csv (text response) = Raise (ParserError diagnostic) →
       let message :=
         st_error ("Failed to parse data. Parser error: " +:+ diagnostic) in
       load_data read_csv response = Ok (None, [message])
       ∧ run_script read_csv true response
         = Ok ([message], nothing_loaded nothing_loaded_body)).
Proof.
  split; [|split].
  - intros data drawn.
    destruct (decide (status_code response = 200%Z)) as [H200|Hother].
    + rewrite load_data_200 by done.
      destruct (read_csv (text response)) as [data'|e].
      * split.
        -- intros Heq. injection Heq as -> <-. done.
        -- intros (_ & Heq & ->). by injection Heq as ->.
      * split; [by destruct e|]. by intros (_ & Heq & _).
    + rewrite load_data_not_200 by done. split; [done|].
      by intros (H200 & _).
  - intros Hother message. unfold run_script.
    by rewrite load_data_not_200.
  - intros diagnostic H200 Hparse message. unfold run_script.
    by rewrite load_data_200, Hparse.
Qed.

Lemma load_data_outcomes_witness :
  let not_found := {| status_code := 404; text := "Not Found" |} in
  let ragged := {| status_code := 200; text := "ragged body" |} in
  (status_code not_found ≠ 200%Z
   ∧ run_script sample_read_csv true not_found
     = Ok ([st_error "Failed to fetch data. Status code: 404"],
           nothing_loaded nothing_loaded_body))
  ∧ (status_code ragged = 200%Z
     ∧ sample_read_csv (text ragged) = Raise (ParserError ragged_diagnostic)
     ∧ run_script sample_read_csv true ragged
       = Ok ([st_error ("Failed to parse data. Parser error: "
                        +:+ ragged_diagnostic)],
             nothing_loaded nothing_loaded_body)).
Proof.
  intros not_found ragged.
  assert (status_code not_found ≠ 200%Z) as H404 by (by vm_compute).
  assert (status_code ragged = 200%Z) as H200 by reflexivity.
  assert (sample_read_csv (text ragged)
          = Raise (ParserError ragged_diagnostic)) as Hparse
    by (by vm_compute).
  split.
  - split; [exact H404|].
    exact (proj2 (proj1 (proj2
      (load_data_outcomes sample_read_csv not_found)) H404)).
  - split; [exact H200|]. split; [exact Hparse|].
    exact (proj2 (proj2 (proj2
      (load_data_outcomes sample_read_csv ragged))
      ragged_diagnostic H200 Hparse)).
Defined.

(** * Further properties of the script *)

(** ** Filter engine *)

Lemma price_mask_bounds lo hi r :
  price_mask lo hi r
  ↔ ∃ p l h, prix_visite r = Some p ∧ lo = Some l ∧ hi = Some h
             ∧ (l <= p)%Qc ∧ (p <= h)%Qc.
Proof.
  unfold price_mask, price_ge, price_le. rewrite andb_True.
  destruct (prix_visite r) as [p|], lo as [l|], hi as [h|]; simpl;
    rewrite ?bool_decide_spec;
    try (split; [by intros [? ?]|by intros (? & ? & ? & ? & ? & ? & _)]).
  split.
  - intros [Hl Hh]. by exists p, l, h.
  - intros (p' & l' & h' & Hp & Hl & Hh & Hle & Hge).
    injection Hp as ->. injection Hl as ->. injection Hh as ->. by split.
Qed.

(** X1: the filtered table is a sublist of the loaded one (rows are
    neither added, repeated nor reordered), and a row is in it exactly
    when its department is selected and, with the additional filters on,
    its vehicle category and energy type are selected and its price
    exists and lies between the two slider values. *)
Theorem filtered_rows_characterised (data : Table) (F : FilterSpec) :
  apply_filters data F `sublist_of` data
  ∧ ∀ r, r ∈ apply_filters data F
     ↔ r ∈ data
       ∧ (ALL ∈ selected_departments F
          ∨ cct_code_dept r ∈ selected_departments F)
       ∧ (more_options F = true →
          (ALL ∈ selected_vehicle_category F
           ∨ cat_vehicule_libelle r ∈ selected_vehicle_category F)
          ∧ (ALL ∈ selected_energy_type F
             ∨ cat_energie_libelle r ∈ selected_energy_type F)
          ∧ ∃ p lo hi, prix_visite r = Some p
                       ∧ price_range F = (Some lo, Some hi)
                       ∧ (lo <= p)%Qc ∧ (p <= hi)%Qc).
Proof.
  rewrite apply_filters_keeps. split; [apply sublist_filter|].
  intros r. rewrite list_elem_of_filter. unfold keeps, selects.
  rewrite price_mask_bounds. rewrite Is_true_true.
  destruct (price_range F) as [lo hi]. simpl. split.
  - intros [[Hdept Hmore] Hr]. split; [done|]. split; [done|].
    intros Hon. destruct (Hmore Hon) as (Hcat & Hen & p & l & h & Hp & -> & -> & Hb).
    split; [done|]. split; [done|]. by exists p, l, h.
  - intros (Hr & Hdept & Hmore). split; [|done]. split; [done|].
    intros Hon.
    destruct (Hmore Hon) as (Hcat & Hen & p & l & h & Hp & Heq & Hb).
    injection Heq as -> ->. split; [done|]. split; [done|].
    by exists p, l, h.
Qed.

Lemma filter_comm {A} (P Q : A → Prop) `{!∀ x, Decision (P x)}
    `{!∀ x, Decision (Q x)} (l : list A) :
  filter P (filter Q l) = filter Q (filter P l).
Proof. rewrite !list_filter_filter. apply list_filter_iff. tauto. Qed.

Lemma row_filter_swap f g t :
  row_filter f → row_filter g → g (f t) = f (g t).
Proof.
  intros (P & decP & HP) (Q & decQ & HQ).
  rewrite HP, HQ, (HQ t), HP. apply filter_comm.
Qed.

Lemma run_steps_permutation steps steps' t :
  Forall row_filter steps → steps ≡ₚ steps' →
  run_steps steps t = run_steps steps' t.
Proof.
  intros Hall Hperm. revert t. unfold run_steps.
  induction Hperm as [|f l l' Hperm IH|f g l|l l' l'' H1 IH1 H2 IH2];
    intros t; simpl.
  - done.
  - apply IH. by apply Forall_cons_1 in Hall as [_ ?].
  - apply Forall_cons_1 in Hall as [Hg Hall].
    apply Forall_cons_1 in Hall as [Hf _].
    f_equal. by apply row_filter_swap.
  - rewrite IH1 by done. apply IH2. by rewrite <- H1.
Qed.

Lemma filter_steps_row_filters F : Forall row_filter (filter_steps F).
Proof.
  unfold filter_steps. repeat apply Forall_cons_2; [..|constructor].
  - eexists _, _. intros t. apply multiselect_filter_selects.
  - eexists _, _. intros t. apply multiselect_filter_selects.
  - eexists _, _. intros t. apply multiselect_filter_selects.
  - by eexists _, _.
Qed.

(** X2: with the additional filters on, the four filters give the same
    table in whatever order they are applied. *)
Theorem filters_in_any_order (data : Table) (F : FilterSpec)
    (steps : list (Table → Table)) :
  more_options F = true →
  steps ≡ₚ filter_steps F →
  run_steps steps data = apply_filters data F.
Proof.
  intros Hon Hperm.
  rewrite <- (run_steps_permutation (filter_steps F) steps)
    by (apply filter_steps_row_filters || done).
  unfold apply_filters. by rewrite Hon.
Qed.

Lemma filters_in_any_order_witness :
  let F := default_spec table_missing_price true in
  let steps :=
    [price_filter (price_range F);
     multiselect_filter cat_energie_libelle (selected_energy_type F);
     multiselect_filter cct_code_dept (selected_departments F);
     multiselect_filter cat_vehicule_libelle (selected_vehicle_category F)] in
  more_options F = true
  ∧ steps ≡ₚ filter_steps F
  ∧ run_steps steps table_missing_price
    = apply_filters table_missing_price F.
Proof.
  intros F steps.
  assert (more_options F = true) as Hon by reflexivity.
  assert (steps ≡ₚ filter_steps F) as Hperm.
  { unfold steps, filter_steps.
    etrans; [apply Permutation_cons_append|]. simpl.
    etrans; [apply Permutation_cons_append|]. simpl.
    apply perm_skip. apply perm_skip. apply perm_swap. }
  split; [exact Hon|]. split; [exact Hperm|].
  exact (filters_in_any_order table_missing_price F steps Hon Hperm).
Defined.

(** X3: two filter specifications applied one after the other give the
    same table in either order. *)
Theorem apply_filters_commute (T : Table) (F G : FilterSpec) :
  apply_filters (apply_filters T F) G = apply_filters (apply_filters T G) F.
Proof. rewrite !apply_filters_keeps. apply filter_comm. Qed.

(** X4: a selection that holds every value the multiselect offers after
    its leading "All" entry filters nothing out, on the loaded table and
    on any table of rows taken from it. *)
Theorem selecting_every_option_keeps_all (col : Row → label)
    (data df : Table) (selection : list label) :
  tail (multiselect_options col data) ⊆ selection →
  df ⊆ data →
  multiselect_filter col selection df = df.
Proof.
  intros Hsel Hsub. rewrite multiselect_filter_selects.
  apply filter_all. intros r Hr. right. apply Hsel. simpl.
  apply elem_of_unique, list_elem_of_fmap_2, Hsub, Hr.
Qed.

Lemma selecting_every_option_keeps_all_witness :
  tail (multiselect_options cct_code_dept table_missing_price)
    ⊆ [Some "92"; Some "75"]
  ∧ [unpriced; priced_50] ⊆ table_missing_price
  ∧ multiselect_filter cct_code_dept [Some "92"; Some "75"]
      [unpriced; priced_50] = [unpriced; priced_50].
Proof.
  assert (tail (multiselect_options cct_code_dept table_missing_price)
            ⊆ [Some "92"; Some "75"]) as Hsel.
  { intros v Hv. vm_compute in Hv.
    repeat (apply elem_of_cons in Hv as [->|Hv]);
      [right; left|left|by apply elem_of_nil in Hv]. }
  assert ([unpriced; priced_50] ⊆ table_missing_price) as Hsub.
  { intros r Hr.
    repeat (apply elem_of_cons in Hr as [->|Hr]);
      [right; right; left|left|by apply elem_of_nil in Hr]. }
  split; [exact Hsel|]. split; [exact Hsub|].
  exact (selecting_every_option_keeps_all cct_code_dept table_missing_price
           [unpriced; priced_50] [Some "92"; Some "75"] Hsel Hsub).
Defined.

(** *** Slider bounds *)

Lemma foldl_price_min2_attained col acc m :
  foldl price_min2 acc col = Some m → acc = Some m ∨ Some m ∈ col.
Proof.
  revert acc. induction col as [|x col IH]; intros acc; simpl; [by left|].
  intros Hm. apply IH in Hm as [Hacc|Hin]; [|right; by right].
  unfold price_min2 in Hacc. destruct acc as [a|], x as [b|];
    try case_bool_decide; simplify_eq; first [by left|by right; left].
Qed.

Lemma foldl_price_max2_attained col acc m :
  foldl price_max2 acc col = Some m → acc = Some m ∨ Some m ∈ col.
Proof.
  revert acc. induction col as [|x col IH]; intros acc; simpl; [by left|].
  intros Hm. apply IH in Hm as [Hacc|Hin]; [|right; by right].
  unfold price_max2 in Hacc. destruct acc as [a|], x as [b|];
    try case_bool_decide; simplify_eq; first [by left|by right; left].
Qed.

Lemma foldl_price_min2_none col :
  (∀ p, p ∈ col → p = None) → foldl price_min2 None col = None.
Proof.
  induction col as [|x col IH]; intros Hall; [done|]. simpl.
  rewrite (Hall x) by left. simpl. apply IH. intros p Hp. apply Hall.
  by right.
Qed.

Lemma foldl_price_max2_none col :
  (∀ p, p ∈ col → p = None) → foldl price_max2 None col = None.
Proof.
  induction col as [|x col IH]; intros Hall; [done|]. simpl.
  rewrite (Hall x) by left. simpl. apply IH. intros p Hp. apply Hall.
  by right.
Qed.

(** X5: the bounds of the price slider are the least and the greatest
    price of the table, each the price of some row; they are both NaN
    exactly when no row has a price. *)
Theorem default_price_range_extremes (data : Table) :
  ((∀ r, r ∈ data → prix_visite r = None) →
   default_price_range data = (None, None))
  ∧ (∀ r0 p0, r0 ∈ data → prix_visite r0 = Some p0 →
     ∃ lo hi,
       default_price_range data = (Some lo, Some hi)
       ∧ (∃ r, r ∈ data ∧ prix_visite r = Some lo)
       ∧ (∃ r, r ∈ data ∧ prix_visite r = Some hi)
       ∧ ∀ r p, r ∈ data → prix_visite r = Some p →
                (lo <= p)%Qc ∧ (p <= hi)%Qc).
Proof.
  unfold default_price_range, series_min, series_max. split.
  - intros Hnone.
    rewrite foldl_price_min2_none, foldl_price_max2_none; [done|..];
      by intros p (r & -> & Hr)%list_elem_of_fmap; apply Hnone.
  - intros r0 p0 Hr0 Hp0.
    assert (∀ r p, r ∈ data → prix_visite r = Some p →
              Some p ∈ prix_visite <$> data) as Hcol.
    { intros r p Hr <-. by apply list_elem_of_fmap_2. }
    destruct (foldl_price_min2_elem _ None p0 (Hcol _ _ Hr0 Hp0))
      as (lo & Hlo & _).
    destruct (foldl_price_max2_elem _ None p0 (Hcol _ _ Hr0 Hp0))
      as (hi & Hhi & _).
    exists lo, hi. rewrite Hlo, Hhi. split; [done|].
    split; [|split].
    + apply foldl_price_min2_attained in Hlo as [?|Hin]; [done|].
      apply list_elem_of_fmap in Hin as (r & Hr & Hin). by exists r.
    + apply foldl_price_max2_attained in Hhi as [?|Hin]; [done|].
      apply list_elem_of_fmap in Hin as (r & Hr & Hin). by exists r.
    + intros r p Hr Hp.
      destruct (foldl_price_min2_elem _ None p (Hcol _ _ Hr Hp))
        as (lo' & Hlo' & Hle).
      destruct (foldl_price_max2_elem _ None p (Hcol _ _ Hr Hp))
        as (hi' & Hhi' & Hge).
      rewrite Hlo in Hlo'. rewrite Hhi in Hhi'.
      injection Hlo' as <-. injection Hhi' as <-. by split.
Qed.

(** ** Coordinate extractor *)

Lemma str_split_length sep s :
  length (str_split sep s) = S (count_char sep s).
Proof.
  induction s as [|c rest IH]; simpl; [done|].
  case_bool_decide; simpl; [by rewrite IH|].
  destruct (str_split sep rest) as [|piece pieces]; simpl in *; lia.
Qed.

(** X6: whatever [float] accepts, a string with no comma or with more
    than one gives the absent pair; and the pair returned is never half
    present. *)
Theorem extract_coordinates_needs_one_comma {F : Type}
    (float : string → option F) (s : string) :
  (count_char "," s ≠ 1 →
   extract_coordinates float (Some s) = Ok (None, None))
  ∧ ∀ cell v, extract_coordinates float cell = Ok v →
              (is_Some v.1 ↔ is_Some v.2).
Proof.
  split.
  - intros Hcommas. rewrite extract_coordinates_str.
    pose proof (str_split_length "," s) as Hlen.
    unfold coordinates_of_tokens.
    destruct (str_split "," s) as [|t1 [|t2 [|t3 rest]]]; try done.
    simpl in Hlen. lia.
  - intros [s'|] v; [|done]. rewrite extract_coordinates_str.
    intros [= <-]. unfold coordinates_of_tokens.
    destruct (str_split "," s') as [|t1 [|t2 [|t3 rest]]]; try done.
    by destruct (float t1), (float t2).
Qed.

Lemma extract_coordinates_needs_one_comma_witness :
  count_char "," "48.85;2.35" ≠ 1
  ∧ extract_coordinates py_float (Some "48.85;2.35") = Ok (None, None).
Proof.
  assert (count_char "," "48.85;2.35" ≠ 1) as Hcommas by (by vm_compute).
  split; [exact Hcommas|].
  exact (proj1 (extract_coordinates_needs_one_comma py_float "48.85;2.35")
           Hcommas).
Defined.

(** ** Map markers *)

(** X7: a map the builder returns never has two markers of the same
    center name, and never more markers than the table has rows. *)
Theorem markers_have_distinct_names {F : Type} (float : string → option F)
    (isnan : F → bool) (data : Table) (m : list (Marker F)) :
  display_inspection_centers_map float isnan data = Ok m →
  NoDup (dropna (popup <$> m)) ∧ (length m ≤ length data)%nat.
Proof.
  rewrite display_markers. intros Hm.
  split; [by eapply first_markers_NoDup|by eapply first_markers_length].
Qed.

Lemma markers_have_distinct_names_witness :
  display_inspection_centers_map py_float pyfloat_isnan table_hidden_center
    = Ok []
  ∧ NoDup (dropna (popup (F:=pyfloat) <$> []))
  ∧ (length (@nil (Marker pyfloat)) ≤ length table_hidden_center)%nat.
Proof.
  assert (display_inspection_centers_map py_float pyfloat_isnan
            table_hidden_center = Ok []) as Hmap.
  { rewrite display_markers. by vm_compute. }
  split; [exact Hmap|].
  exact (markers_have_distinct_names py_float pyfloat_isnan
           table_hidden_center [] Hmap).
Defined.

(** X8: every marker of the map comes from a row of the table: it
    bears that row's center name and stands at the coordinates
    [extract_coordinates] reads from that row. *)
Theorem every_marker_comes_from_a_row {F : Type} (float : string → option F)
    (isnan : F → bool) (data : Table) (m : list (Marker F))
    (mk : Marker F) :
  display_inspection_centers_map float isnan data = Ok m →
  mk ∈ m →
  ∃ r, r ∈ data
       ∧ popup mk = cct_denomination r
       ∧ extract_coordinates float (coordgeo r)
         = Ok (Some (location mk).1, Some (location mk).2).
Proof.
  rewrite display_markers. intros Hm Hmk.
  destruct (first_markers_from_rows float isnan _ _ _ _ Hm Hmk)
    as (r & Hr & Hmr).
  exists r. split; [done|]. unfold marker_of_row in Hmr.
  destruct (extract_coordinates _ _) as [[[la|] [lo|]]|]; try done.
  by injection Hmr as <-.
Qed.

Lemma every_marker_comes_from_a_row_witness :
  let mk := {| location := (default float_nan (py_float "48.85"),
                            default float_nan (py_float "2.35"));
               popup := Some "Autovision" |} in
  display_inspection_centers_map py_float pyfloat_isnan table_two_sites
    = Ok [mk]
  ∧ mk ∈ [mk]
  ∧ ∃ r, r ∈ table_two_sites
         ∧ popup mk = cct_denomination r
         ∧ extract_coordinates py_float (coordgeo r)
           = Ok (Some (location mk).1, Some (location mk).2).
Proof.
  intros mk.
  assert (display_inspection_centers_map py_float pyfloat_isnan
            table_two_sites = Ok [mk]) as Hmap.
  { rewrite display_markers. by vm_compute. }
  assert (mk ∈ [mk]) as Hmk by left.
  split; [exact Hmap|]. split; [exact Hmk|].
  exact (every_marker_comes_from_a_row py_float pyfloat_isnan
           table_two_sites [mk] mk Hmap Hmk).
Defined.

(** X9: when the builder returns a map for a table with rows appended,
    it returns one for the table itself, whose markers stay in place at
    the head of the longer map; and appending a table whose rows all have
    a center name to itself adds no marker. *)
Theorem appended_rows_only_add_markers {F : Type}
    (float : string → option F) (isnan : F → bool) (data more : Table) :
  (∀ m', display_inspection_centers_map float isnan (data ++ more) = Ok m' →
         ∃ m added,
           display_inspection_centers_map float isnan data = Ok m
           ∧ m' = m ++ added)
  ∧ (∀ m, (∀ r, r ∈ data → is_Some (cct_denomination r)) →
          display_inspection_centers_map float isnan data = Ok m →
          display_inspection_centers_map float isnan (data ++ data) = Ok m).
Proof.
  split.
  - intros m'. rewrite !display_markers, first_markers_app.
    destruct (first_markers float isnan data ∅) as [m|e]; simpl; [|done].
    destruct (first_markers float isnan more _) as [added|e]; simpl;
      [|done].
    intros [= <-]. by exists m, added.
  - intros m Hnamed. rewrite !display_markers, first_markers_app.
    intros ->. simpl.
    rewrite first_markers_all_seen; [simpl; by rewrite app_nil_r|].
    intros r Hr. destruct (Hnamed r Hr) as [n Hn]. rewrite Hn.
    by apply (name_in_seen_after_row data ∅ r).
Qed.

Lemma appended_rows_only_add_markers_witness :
  let mk := {| location := (default float_nan (py_float "48.85"),
                            default float_nan (py_float "2.35"));
               popup := Some "Autovision" |} in
  (∀ r, r ∈ table_two_sites → is_Some (cct_denomination r))
  ∧ display_inspection_centers_map py_float pyfloat_isnan table_two_sites
    = Ok [mk]
  ∧ display_inspection_centers_map py_float pyfloat_isnan
      (table_two_sites ++ table_two_sites) = Ok [mk].
Proof.
  intros mk.
  assert (∀ r, r ∈ table_two_sites → is_Some (cct_denomination r))
    as Hnamed.
  { intros r Hr. repeat (apply elem_of_cons in Hr as [->|Hr]);
      [by eexists|by eexists|by apply elem_of_nil in Hr]. }
  assert (display_inspection_centers_map py_float pyfloat_isnan
            table_two_sites = Ok [mk]) as Hmap.
  { rewrite display_markers. by vm_compute. }
  split; [exact Hnamed|]. split; [exact Hmap|].
  exact (proj2 (appended_rows_only_add_markers py_float pyfloat_isnan
                  table_two_sites []) [mk] Hnamed Hmap).
Defined.








(** ** Aggregations *)

Lemma count_value_present k col : Some k ∈ col → (1 ≤ count_value k col)%nat.
Proof.
  induction col as [|v col IH]; intros Hin; [by apply elem_of_nil in Hin|].
  apply elem_of_cons in Hin as [<-|Hin].
  - rewrite count_value_cons_same. lia.
  - specialize (IH Hin). unfold count_value in *. rewrite filter_cons.
    case_decide; cbn [length]; [lia|exact IH].
Qed.

Lemma keys_of_counts (c : string → nat) (ks : list string) :
  ((λ k, (k, c k)) <$> ks).*1 = ks.
Proof.
  induction ks as [|k ks IH]; [done|].
  rewrite !fmap_cons. simpl. f_equal. exact IH.
Qed.

(** X11: the counting aggregation lists each value of the column once,
    with the number of cells that hold it (at least one), the largest
    count first; NaN cells are not listed. *)
Theorem value_counts_entries (col : list label) :
  NoDup (value_counts col).*1
  ∧ (∀ k n, (k, n) ∈ value_counts col
            ↔ Some k ∈ col ∧ n = length (filter (λ v, v = Some k) col))
  ∧ (∀ k n, (k, n) ∈ value_counts col → (1 ≤ n)%nat)
  ∧ Sorted (λ a b : string * nat, (b.2 ≤ a.2)%nat) (value_counts col).
Proof.
  split; [|split; [|split]].
  - unfold value_counts. rewrite merge_sort_Permutation.
    rewrite keys_of_counts. apply NoDup_unique.
  - intros k n. apply elem_of_value_counts.
  - intros k n [Hk ->]%elem_of_value_counts. by apply count_value_present.
  - apply value_counts_sorted.
Qed.

Lemma count_value_column (col : Row → label) (k : string) (data : Table) :
  count_value k (col <$> data)
  = length (filter (λ r, col r = Some k) data).
Proof.
  unfold count_value. induction data as [|r data IH]; [done|].
  rewrite fmap_cons, !filter_cons.
  repeat case_decide; try done; cbn [length]; try f_equal; exact IH.
Qed.

(** X13: the department chart is drawn with the additional filters on;
    with a department selection that does not hold "All", it lists
    selected departments only, each with the number of the rows of the
    whole table that bear it and pass the vehicle, energy and price
    filters, and that number is not zero. *)
Theorem department_chart_lists_selection (data : Table) (F : FilterSpec)
    (k : string) (n : nat) :
  more_options F = true →
  ALL ∉ selected_departments F →
  (k, n) ∈ value_counts (cct_code_dept <$> apply_filters data F) →
  Some k ∈ selected_departments F
  ∧ (1 ≤ n)%nat
  ∧ n = length (filter
                  (λ r, cct_code_dept r = Some k
                        ∧ selects cat_vehicule_libelle
                            (selected_vehicle_category F) r
                        ∧ selects cat_energie_libelle
                            (selected_energy_type F) r
                        ∧ price_mask (price_range F).1 (price_range F).2 r)
                  data).
Proof.
  intros Hon HALL Hin.
  pose proof Hin as [Hk ->]%elem_of_value_counts.
  pose proof (count_value_present _ _ Hk) as Hpos.
  apply list_elem_of_fmap in Hk as (r & Hdept & Hr).
  rewrite apply_filters_keeps in Hr.
  apply list_elem_of_filter in Hr as [[Hsel _] _].
  destruct Hsel as [?|Hsel]; [done|]. rewrite <- Hdept in Hsel.
  split; [done|]. split; [done|].
  rewrite count_value_column, apply_filters_keeps, list_filter_filter.
  f_equal. apply list_filter_iff. intros r'. unfold keeps, selects.
  rewrite Hon. simpl. split.
  - intros (Heq & _ & Hrest). split; [done|]. by apply Hrest.
  - intros (Heq & Hrest). split; [done|]. split; [|done].
    right. by rewrite Heq.
Qed.

Lemma department_chart_lists_selection_witness :
  let F := {| selected_departments := [Some "75"];
              more_options := true;
              selected_vehicle_category := [ALL];
              selected_energy_type := [ALL];
              price_range := (Some (Qc_of_Z 0), Some (Qc_of_Z 100)) |} in
  more_options F = true
  ∧ (ALL ∉ selected_departments F)
  ∧ ("75", 2) ∈ value_counts
                  (cct_code_dept <$> apply_filters table_missing_price F)
  ∧ Some "75" ∈ selected_departments F ∧ (1 ≤ 2)%nat.
Proof.
  intros F.
  assert (more_options F = true) as Hon by reflexivity.
  assert (ALL ∉ selected_departments F) as HALL.
  { intros Hin. apply elem_of_cons in Hin as [Hin|Hin]; [discriminate|].
    by apply elem_of_nil in Hin. }
  assert (("75", 2) ∈ value_counts
            (cct_code_dept <$> apply_filters table_missing_price F)) as Hin
    by (vm_compute; left).
  split; [exact Hon|]. split; [exact HALL|]. split; [exact Hin|].
  destruct (department_chart_lists_selection table_missing_price F "75" 2
              Hon HALL Hin) as (Hsel & Hpos & _).
  split; [exact Hsel|exact Hpos].
Defined.

(** ** Time-period chart *)

Lemma ts_leb_spec (a b : Timestamp) :
  ts_leb a b
  ↔ (ts_year a < ts_year b
     ∨ ts_year a = ts_year b
       ∧ (ts_month a < ts_month b
          ∨ ts_month a = ts_month b
            ∧ (ts_day a < ts_day b
               ∨ ts_day a = ts_day b ∧ ts_time a <= ts_time b)))%Z.
Proof.
  unfold ts_leb, ts_compare, lex.
  destruct (Z.compare_spec (ts_year a) (ts_year b));
    destruct (Z.compare_spec (ts_month a) (ts_month b));
    destruct (Z.compare_spec (ts_day a) (ts_day b));
    destruct (Z.compare_spec (ts_time a) (ts_time b));
    simpl; split; try done; try lia.
Qed.

Lemma ts_leb_trans (a b c : Timestamp) :
  ts_leb a b → ts_leb b c → ts_leb a c.
Proof. rewrite !ts_leb_spec. lia. Qed.



(** X15: narrowing the interval and charting again is the same as
    charting the narrower interval at once: the rows kept for an interval
    inside another are those kept from the rows of the wider one. *)
Theorem period_filter_narrowed (to_datetime : label → option Timestamp)
    (data : Table) (start_date end_date start_date' end_date' : Timestamp) :
  ts_leb start_date start_date' →
  ts_leb end_date' end_date →
  period_filter to_datetime
    (period_filter to_datetime data start_date end_date)
    start_date' end_date'
  = period_filter to_datetime data start_date' end_date'.
Proof.
  intros Hstart Hend. unfold period_filter.
  rewrite list_filter_filter. apply list_filter_iff. intros r.
  rewrite !period_mask_within. split; [tauto|].
  intros Hin. split; [done|].
  destruct Hin as (ts & Hts & Hge & Hle). exists ts.
  split; [done|]. split.
  - by apply ts_leb_trans with start_date'.
  - by apply ts_leb_trans with end_date'.
Qed.

Lemma period_filter_narrowed_witness :
  let mid := {| ts_year := 2023; ts_month := 5; ts_day := 10;
                ts_time := 0 |} in
  ts_leb may_first mid
  ∧ ts_leb may_last may_last
  ∧ period_filter iso_to_datetime
      (period_filter iso_to_datetime [visit_10; visit_20] may_first may_last)
      mid may_last
    = period_filter iso_to_datetime [visit_10; visit_20] mid may_last.
Proof.
  intros mid.
  assert (ts_leb may_first mid) as Hstart by (by vm_compute).
  assert (ts_leb may_last may_last) as Hend by (by vm_compute).
  split; [exact Hstart|]. split; [exact Hend|].
  exact (period_filter_narrowed iso_to_datetime [visit_10; visit_20]
           may_first may_last mid may_last Hstart Hend).
Defined.

(** ** Loader *)

(** X16: an exception of [pd.read_csv] that is not a [ParserError]
    (an [EmptyDataError] for an empty body, say) is not caught: it leaves
    [load_data] and the script, and neither a message nor a page is
    drawn. *)
Theorem load_data_lets_other_errors_through
    (read_csv : string → result Table) (response : Response) (e : exn) :
  status_code response = 200%Z →
  read_csv (text response) = Raise e →
  isinstance_ParserError e = false →
  load_data read_csv response = Raise e
  ∧ run_script read_csv true response = Raise e.
Proof.
  intros H200 Hraise Hclass. unfold run_script.
  rewrite load_data_200 by done. rewrite Hraise.
  by destruct e.
Qed.

Lemma load_data_lets_other_errors_through_witness :
  let empty := {| status_code := 200; text := "" |} in
  status_code empty = 200%Z
  ∧ sample_read_csv (text empty) = Raise EmptyDataError
  ∧ isinstance_ParserError EmptyDataError = false
  ∧ load_data sample_read_csv empty = Raise EmptyDataError
  ∧ run_script sample_read_csv true empty = Raise EmptyDataError.
Proof.
  intros empty.
  assert (status_code empty = 200%Z) as H200 by reflexivity.
  assert (sample_read_csv (text empty) = Raise EmptyDataError) as Hraise
    by reflexivity.
  assert (isinstance_ParserError EmptyDataError = false) as Hclass
    by reflexivity.
  split; [exact H200|]. split; [exact Hraise|]. split; [exact Hclass|].
  exact (load_data_lets_other_errors_through sample_read_csv empty
           EmptyDataError H200 Hraise Hclass).
Defined.

(** X17: whenever [load_data] returns, it has drawn an error message
    exactly when it returns no table, and never more than one element;
    and the body of a response whose status is not 200 is never parsed:
    the outcome is the same whatever [pd.read_csv] would do. *)
Theorem load_data_draws_iff_no_table (read_csv : string → result Table)
    (response : Response) :
  (∀ data drawn,
     load_data read_csv response = Ok (data, drawn) →
     (data = None ↔ ∃ message, drawn = [st_error message])
     ∧ (data ≠ None ↔ drawn = []))
  ∧ (status_code response ≠ 200%Z →
     ∀ read_csv' : string → result Table,
       load_data read_csv' response = load_data read_csv response).
Proof.
  split.
  - intros data drawn.
    destruct (decide (status_code response = 200%Z)) as [H200|Hother].
    + rewrite load_data_200 by done.
      destruct (read_csv (text response)) as [t|e].
      * intros Heq. injection Heq as <- <-.
        split; split; try done. intros [message Hmsg]. discriminate.
      * destruct e; intros Heq; try discriminate. injection Heq as <- <-.
        split; split; try done; try (by eexists);
          intros Hne; by destruct Hne.
    + rewrite load_data_not_200 by done. intros Heq. injection Heq as <- <-.
      split; split; try done; try (by eexists);
        intros Hne; by destruct Hne.
  - intros Hother read_csv'. by rewrite !load_data_not_200.
Qed.
